(** * gazeta: a shallow embedding of the collection / report pipeline

    The Python sources embedded here are
    - [src/database.py]        (module [Database]),
    - [src/telegram_client.py] (module [Telegram]),
    - [src/collector.py]       (module [Collector]),
    - [src/report_formatter.py] (module [ReportFormatter]),
    - [src/digest_generator.py] (module [DigestGenerator]).

    Python [str] values are lists of Unicode code points, [datetime]
    values are points of one integer time line (microseconds), SQLite
    tables are lists of rows in rowid order, and exceptions are an
    explicit result type. *)

From Stdlib Require Import ZArith NArith Lia String Ascii.
From stdpp Require Import base decidable option list sorting.

Local Open Scope nat_scope.

(** ** Python strings *)

Module Py.

(** A character is a Unicode code point; [len] counts code points. *)
Abbreviation char := N (only parsing).
Abbreviation str := (list N) (only parsing).

(** A [str] literal written with ASCII characters only. *)
Definition lit (s : string) : str :=
  List.map N_of_ascii (list_ascii_of_string s).

Definition nl : char := 10%N.
Definition quote : char := 34%N.

(** Truthiness of a string: [if s:] holds for the non-empty ones. *)
Definition truthy (s : str) : bool :=
  match s with [] => false | _ :: _ => true end.

(** Truthiness of an optional string ([None] and [""] are both falsy). *)
Definition otruthy (s : option str) : bool :=
  match s with Some s => truthy s | None => false end.

(** [s.split(sep)] for a one-character separator: never an empty list. *)
Fixpoint split (sep : char) (s : str) : list str :=
  match s with
  | [] => [[]]
  | c :: s' =>
      if N.eqb c sep then [] :: split sep s'
      else match split sep s' with
           | [] => [[c]]
           | l :: ls => (c :: l) :: ls
           end
  end.

(** [sep.join(parts)]. *)
Fixpoint join (sep : str) (parts : list str) : str :=
  match parts with
  | [] => []
  | p :: ps =>
      match ps with
      | [] => p
      | _ :: _ => p ++ sep ++ join sep ps
      end
  end.

(** [old] is a prefix of [s]. *)
Fixpoint startswith (s old : str) : bool :=
  match old, s with
  | [], _ => true
  | _ :: _, [] => false
  | o :: old', c :: s' => N.eqb o c && startswith s' old'
  end.

(** [s.replace(old, new)] for a non-empty [old]: a left-to-right scan
    that replaces every non-overlapping occurrence.  [skip] counts the
    characters of an occurrence still to be passed over. *)
Fixpoint replace_from (old new : str) (skip : nat) (s : str) : str :=
  match s with
  | [] => []
  | c :: s' =>
      match skip with
      | S k => replace_from old new k s'
      | O =>
          if startswith s old
          then new ++ replace_from old new (length old - 1) s'
          else c :: replace_from old new 0 s'
      end
  end.

(** With an empty [old] Python puts [new] before every character and at
    the end. *)
Fixpoint intersperse_all (new s : str) : str :=
  match s with
  | [] => new
  | c :: s' => new ++ c :: intersperse_all new s'
  end.

Definition replace (s old new : str) : str :=
  match old with
  | [] => intersperse_all new s
  | _ :: _ => replace_from old new 0 s
  end.

End Py.

(** ** Exceptions *)

Module Exc.

(** The exception classes that the embedded code raises or catches;
    all of them are subclasses of Python's [Exception]. *)
Inductive exception : Type :=
  | IntegrityError      (* aiosqlite.IntegrityError: a constraint failed *)
  | ValueError          (* e.g. a slice step of zero *)
  | CollaboratorError.  (* any failure of the Telegram or BotHub client *)

Inductive result (A : Type) : Type :=
  | Ok (a : A)
  | Raise (e : exception).
Arguments Ok {A} a.
Arguments Raise {A} e.

End Exc.

(** ** datetime *)

Module Datetime.

(** A naive [datetime] is a number of microseconds on the wall-clock
    time line; day boundaries are the multiples of [day].  SQLite keeps
    a [datetime] as its ISO text and compares the texts, which orders
    naive values as the time line does. *)
Abbreviation datetime := Z (only parsing).

Local Open Scope Z_scope.

Definition second : Z := 1000000.
Definition minute : Z := 60 * second.
Definition hour : Z := 60 * minute.
Definition day : Z := 24 * hour.

(** [t.replace(hour=0, minute=0, second=0, microsecond=0)]. *)
Definition replace_midnight (t : datetime) : datetime := t - t mod day.

(** [timedelta(days=n)] and [timedelta(hours=n)]. *)
Definition timedelta_days (n : Z) : Z := n * day.
Definition timedelta_hours (n : Z) : Z := n * hour.

Definition hour_of (t : datetime) : Z := (t / hour) mod 24.
Definition minute_of (t : datetime) : Z := (t / minute) mod 60.

(** Two decimal digits, zero padded (the [%H] and [%M] fields). *)
Definition two_digits (n : Z) : list N :=
  [Z.to_N (48 + n / 10); Z.to_N (48 + n mod 10)].

(** [t.strftime("%H:%M")]. *)
Definition strftime_HM (t : datetime) : list N :=
  two_digits (hour_of t) ++ [58%N] ++ two_digits (minute_of t).

End Datetime.

(** ** database.py *)

Module Database.
Import Py Exc Datetime.

Local Open Scope Z_scope.

(** *** Rows of the three tables

    The [created_at] columns are left out: no embedded statement reads
    them. *)

Record source_row : Type := mk_source {
  src_id : Z;
  src_identifier : str;
  src_type : str;
  src_title : option str;
  src_username : option str;
  src_last_updated : option datetime }.

Record message_row : Type := mk_message {
  msg_id : Z;
  msg_source_id : Z;
  msg_message_id : Z;
  msg_date : datetime;
  msg_text : option str;
  msg_link : option str;
  msg_sender_id : option Z;
  msg_sender_name : option str }.

Record report_row : Type := mk_report {
  rep_id : Z;
  rep_date : str;
  rep_content : str;
  rep_sent_at : option datetime }.

(** The database as one connection sees it.  Tables are kept in rowid
    order.  [seq_*] is the [sqlite_sequence] entry of an AUTOINCREMENT
    table (the largest rowid it ever held); [last_insert_rowid] is the
    connection's [sqlite3_last_insert_rowid()], which is what
    [cursor.lastrowid] reports after an INSERT statement: the rowid of
    the most recent successful INSERT on this connection, 0 before any.
    A failed INSERT and the DO UPDATE branch of an upsert leave it as it
    was. *)
Record t : Type := mk_db {
  sources : list source_row;
  messages : list message_row;
  reports : list report_row;
  seq_sources : Z;
  seq_messages : Z;
  seq_reports : Z;
  last_insert_rowid : Z }.

(** [init_schema] on a new file. *)
Definition empty : t := mk_db [] [] [] 0 0 0 0.

(** [connect] on an existing file: the CREATE ... IF NOT EXISTS
    statements change nothing, the connection is new. *)
Definition connect (db : t) : t :=
  mk_db (sources db) (messages db) (reports db)
        (seq_sources db) (seq_messages db) (seq_reports db) 0.

(** SQL [COALESCE(x, y)]: the first argument that is not NULL. *)
Definition coalesce {A : Type} (x y : option A) : option A :=
  match x with Some _ => x | None => y end.

(** *** sources *)

(** The DO UPDATE branch of [add_source] on one row. *)
Definition update_source (title username : option str) (now : datetime)
    (s : source_row) : source_row :=
  mk_source (src_id s) (src_identifier s) (src_type s)
            (coalesce title (src_title s))
            (coalesce username (src_username s))
            (Some now).

(** [Database.get_source_by_identifier]: SELECT ... WHERE identifier = ?
    and [fetchone]. *)
Definition get_source_by_identifier (db : t) (identifier : str)
  : option source_row :=
  head (filter (λ s, src_identifier s = identifier) (sources db)).

(** The upsert statement of [add_source].  [now] is the value of the
    [datetime.now()] that the branch taken stores. *)
Definition upsert_source (db : t) (identifier source_type : str)
    (title username : option str) (now : datetime) : t :=
  if decide (Exists (λ s, src_identifier s = identifier) (sources db)) then
    mk_db ((λ s, if decide (src_identifier s = identifier)
                 then update_source title username now s else s)
             <$> sources db)
          (messages db) (reports db)
          (seq_sources db) (seq_messages db) (seq_reports db)
          (last_insert_rowid db)
  else
    let id := seq_sources db + 1 in
    mk_db (sources db ++
             [mk_source id identifier source_type title username (Some now)])
          (messages db) (reports db)
          id (seq_messages db) (seq_reports db)
          id.

(** [Database.add_source]: the upsert, then SELECT id and
    [row[0] if row else None]. *)
Definition add_source (db : t) (identifier source_type : str)
    (title username : option str) (now : datetime) : option Z * t :=
  let db' := upsert_source db identifier source_type title username now in
  (src_id <$> get_source_by_identifier db' identifier, db').

(** *** messages *)

(** The columns of UNIQUE(source_id, message_id). *)
Definition msg_key (m : message_row) : Z * Z :=
  (msg_source_id m, msg_message_id m).

(** The INSERT statement of [add_message]; UNIQUE(source_id, message_id)
    is checked by the storage layer. *)
Definition insert_message (db : t) (source_id message_id : Z)
    (date : datetime) (text link : option str) (sender_id : option Z)
    (sender_name : option str) : result t :=
  if decide (Exists (λ m, msg_key m = (source_id, message_id)) (messages db))
  then Raise IntegrityError
  else
    let id := seq_messages db + 1 in
    Ok (mk_db (sources db)
              (messages db ++
                 [mk_message id source_id message_id date text link
                             sender_id sender_name])
              (reports db)
              (seq_sources db) id (seq_reports db)
              id).

(** [Database.add_message]: [True] when the row was added, [False] on
    [IntegrityError]. *)
Definition add_message (db : t) (source_id message_id : Z)
    (date : datetime) (text link : option str) (sender_id : option Z)
    (sender_name : option str) : bool * t :=
  match insert_message db source_id message_id date text link
                       sender_id sender_name with
  | Ok db' => (true, db')
  | Raise _ => (false, db)
  end.

(** What [add_message] stores besides the two key columns. *)
Record payload : Type := mk_payload {
  p_date : datetime;
  p_text : option str;
  p_link : option str;
  p_sender_id : option Z;
  p_sender_name : option str }.

(** [add_message] with the payload as one argument. *)
Definition add_message_with (db : t) (source_id message_id : Z)
    (p : payload) : bool * t :=
  add_message db source_id message_id (p_date p) (p_text p) (p_link p)
              (p_sender_id p) (p_sender_name p).

(** The row that a payload becomes. *)
Definition stored_as (id source_id message_id : Z) (p : payload)
  : message_row :=
  mk_message id source_id message_id (p_date p) (p_text p) (p_link p)
             (p_sender_id p) (p_sender_name p).

(** A row of the SELECT in [get_messages_by_date_range]:
    [m.*, s.identifier, s.type, s.title, s.username]. *)
Record message_view : Type := mk_view {
  mv_msg : message_row;
  mv_identifier : str;
  mv_type : str;
  mv_title : option str;
  mv_username : option str }.

Definition mv_date (r : message_view) : datetime := msg_date (mv_msg r).

(** [JOIN sources s ON m.source_id = s.id] for one message. *)
Definition join_sources (db : t) (m : message_row) : list message_view :=
  (λ s, mk_view m (src_identifier s) (src_type s) (src_title s)
                (src_username s))
    <$> filter (λ s, src_id s = msg_source_id m) (sources db).

(** [if source_id:] chooses the statement with the source filter; [None]
    and [0] are falsy. *)
Definition source_filter (source_id : option Z) : option Z :=
  match source_id with
  | Some s => if decide (s = 0) then None else Some s
  | None => None
  end.

(** The WHERE clause: [m.date >= ? AND m.date < ?], and
    [AND m.source_id = ?] in the filtered statement. *)
Definition in_range (start_date end_date : datetime) (source_id : option Z)
    (m : message_row) : Prop :=
  start_date ≤ msg_date m ∧ msg_date m < end_date
  ∧ from_option (λ s, msg_source_id m = s) True (source_filter source_id).

#[global] Instance in_range_dec start_date end_date source_id m :
  Decision (in_range start_date end_date source_id m).
Proof.
  unfold in_range. destruct (source_filter source_id); simpl; apply _.
Defined.

(** [ORDER BY m.date]: rows of equal date stay in rowid order. *)
Fixpoint insert_by_date (r : message_view) (l : list message_view)
  : list message_view :=
  match l with
  | [] => [r]
  | x :: l' =>
      if decide (mv_date r ≤ mv_date x) then r :: x :: l'
      else x :: insert_by_date r l'
  end.

Definition order_by_date (l : list message_view) : list message_view :=
  foldr insert_by_date [] l.

(** The order of the rows in a result. *)
Definition by_date (a b : message_view) : Prop := mv_date a ≤ mv_date b.

(** [Database.get_messages_by_date_range]. *)
Definition get_messages_by_date_range (db : t)
    (start_date end_date : datetime) (source_id : option Z)
  : list message_view :=
  order_by_date
    (filter (in_range start_date end_date source_id) (messages db)
       ≫= join_sources db).

(** *** reports *)

Definition set_content (content : str) (r : report_row) : report_row :=
  mk_report (rep_id r) (rep_date r) content (rep_sent_at r).

Definition set_sent_at (now : datetime) (r : report_row) : report_row :=
  mk_report (rep_id r) (rep_date r) (rep_content r) (Some now).

(** The upsert statement of [save_report]. *)
Definition upsert_report (db : t) (date content : str) : t :=
  if decide (Exists (λ r, rep_date r = date) (reports db)) then
    mk_db (sources db) (messages db)
          ((λ r, if decide (rep_date r = date)
                 then set_content content r else r) <$> reports db)
          (seq_sources db) (seq_messages db) (seq_reports db)
          (last_insert_rowid db)
  else
    let id := seq_reports db + 1 in
    mk_db (sources db) (messages db)
          (reports db ++ [mk_report id date content None])
          (seq_sources db) (seq_messages db) id
          id.

(** [Database.save_report]: the upsert, then [return cursor.lastrowid]. *)
Definition save_report (db : t) (date content : str) : Z * t :=
  let db' := upsert_report db date content in
  (last_insert_rowid db', db').

(** [Database.mark_report_sent]: UPDATE reports SET sent_at = now WHERE
    id = report_id. *)
Definition mark_report_sent (db : t) (report_id : Z) (now : datetime) : t :=
  mk_db (sources db) (messages db)
        ((λ r, if decide (rep_id r = report_id)
               then set_sent_at now r else r) <$> reports db)
        (seq_sources db) (seq_messages db) (seq_reports db)
        (last_insert_rowid db).

(** [Database.get_report_by_date]. *)
Definition get_report_by_date (db : t) (date : str) : option report_row :=
  head (filter (λ r, rep_date r = date) (reports db)).

(** *** What the schema guarantees

    PRIMARY KEY and UNIQUE constraints, and rowids handed out in
    increasing order. *)
Definition table_ok {A K : Type} (id : A → Z) (key : A → K) (seq : Z)
    (rows : list A) : Prop :=
  NoDup (id <$> rows)
  ∧ NoDup (key <$> rows)
  ∧ 0 ≤ seq
  ∧ Forall (λ r, 1 ≤ id r ≤ seq) rows.

Definition schema_ok (db : t) : Prop :=
  table_ok src_id src_identifier (seq_sources db) (sources db)
  ∧ table_ok msg_id msg_key (seq_messages db) (messages db)
  ∧ table_ok rep_id rep_date (seq_reports db) (reports db).

(** Referential integrity of [messages.source_id].  SQLite does not
    enforce the FOREIGN KEY clause unless asked to; the collector keeps
    it by passing to [add_message] the key [add_source] returned. *)
Definition fk_ok (db : t) : Prop :=
  Forall (λ m, msg_source_id m ∈ src_id <$> sources db) (messages db).

Definition db_ok (db : t) : Prop := schema_ok db ∧ fk_ok db.

(** The states that the API calls lead to from a new file when
    [add_message] is given keys of stored sources, as the collector
    does. *)
Inductive reachable : t → Prop :=
  | reach_empty : reachable empty
  | reach_connect db : reachable db → reachable (connect db)
  | reach_add_source db identifier source_type title username now :
      reachable db →
      reachable (add_source db identifier source_type title username now).2
  | reach_add_message db source_id message_id date text link sender_id
                      sender_name :
      reachable db →
      source_id ∈ src_id <$> sources db →
      reachable (add_message db source_id message_id date text link
                             sender_id sender_name).2
  | reach_save_report db date content :
      reachable db → reachable (save_report db date content).2
  | reach_mark_report_sent db report_id now :
      reachable db → reachable (mark_report_sent db report_id now).

#[global] Instance table_ok_dec {A K : Type} `{!EqDecision K}
    (id : A → Z) (key : A → K) seq rows : Decision (table_ok id key seq rows).
Proof. unfold table_ok. apply _. Defined.
#[global] Instance schema_ok_dec db : Decision (schema_ok db).
Proof. unfold schema_ok. apply _. Defined.
#[global] Instance fk_ok_dec db : Decision (fk_ok db).
Proof. unfold fk_ok. apply _. Defined.
#[global] Instance db_ok_dec db : Decision (db_ok db).
Proof. unfold db_ok. apply _. Defined.

End Database.


(** ** telegram_client.py *)

Module Telegram.
Import Py Exc Datetime.

(** *** Chunking of outgoing text *)

(** The inner [while len(line) > max_length] loop of [_split_message]:
    it appends slices of [max_length] characters to [parts] and returns
    the rest of the line.  With [max_length = 0] the Python loop does
    not terminate on a non-empty line; the embedding then runs out of
    [fuel] and yields [None]. *)
Fixpoint hard_split (fuel max_length : nat) (line : str) (parts : list str)
  : option (list str * str) :=
  if max_length <? length line then
    match fuel with
    | O => None
    | S fuel' =>
        hard_split fuel' max_length (drop max_length line)
                   (parts ++ [take max_length line])
    end
  else Some (parts, line).

(** The [for line in lines] loop of [_split_message], on the state
    [(parts, current_part)]. *)
Fixpoint split_loop (max_length : nat) (lines : list str)
    (parts : list str) (current_part : str) : option (list str * str) :=
  match lines with
  | [] => Some (parts, current_part)
  | line :: rest =>
      if max_length <? length current_part + length line + 1 then
        let parts :=
          if truthy current_part then parts ++ [current_part] else parts in
        if max_length <? length line then
          match hard_split (length line) max_length line parts with
          | None => None
          | Some (parts, line) => split_loop max_length rest parts line
          end
        else split_loop max_length rest parts line
      else
        let current_part :=
          if truthy current_part then current_part ++ [nl] else current_part in
        split_loop max_length rest parts (current_part ++ line)
  end.

(** [TelegramService._split_message(text, max_length)]. *)
Definition _split_message (text : str) (max_length : nat) : option (list str) :=
  match split_loop max_length (split nl text) [] [] with
  | None => None
  | Some (parts, current_part) =>
      Some (if truthy current_part then parts ++ [current_part] else parts)
  end.

(** *** The Telethon client as a collaborator *)

Inductive entity_class : Type :=
  | Channel (broadcast : bool)
  | Chat
  | User
  | Other.

Record entity : Type := mk_entity {
  ent_id : Z;
  ent_class : entity_class;
  ent_title : option str;
  ent_username : option str }.

(** The dictionary built by [_extract_message_data]. *)
Record msg_data : Type := mk_msg_data {
  message_id : Z;
  date : datetime;
  text : str;
  link : str;
  sender_id : option Z;
  sender_name : option str }.

(** What [client.iter_messages] delivers, newest first: messages (here
    already passed through [_extract_message_data]) until the history
    ends or the stream raises. *)
Inductive stream : Type :=
  | Done
  | Yield (m : msg_data) (rest : stream)
  | Fail (e : exception).

Record TelegramService : Type := mk_service {
  get_entity : str → result entity;
  iter_messages : str → datetime → stream }.

Definition _get_entity_type (e : entity) : str :=
  match ent_class e with
  | Channel broadcast => if broadcast then lit "channel" else lit "chat"
  | Chat => lit "chat"
  | User => lit "user"
  | Other => lit "unknown"
  end.

(** The [info] dictionary of [get_entity_info]. *)
Record entity_info : Type := mk_info {
  info_id : Z;
  info_type : str;
  info_title : option str;
  info_username : option str }.

(** [TelegramService.get_entity_info]: logs and re-raises. *)
Definition get_entity_info (tg : TelegramService) (identifier : str)
  : result entity_info :=
  match get_entity tg identifier with
  | Ok e => Ok (mk_info (ent_id e) (_get_entity_type e) (ent_title e)
                        (ent_username e))
  | Raise e => Raise e
  end.

(** The [async for] loop of [get_messages]: [break] at the first message
    older than [start_date], [continue] past those at or after
    [end_date]. *)
Fixpoint read_stream (start_date end_date : datetime) (s : stream)
    (messages : list msg_data) : result (list msg_data) :=
  match s with
  | Done => Ok messages
  | Fail e => Raise e
  | Yield message rest =>
      if decide (date message < start_date)%Z then Ok messages
      else if decide (end_date ≤ date message)%Z
           then read_stream start_date end_date rest messages
           else read_stream start_date end_date rest (messages ++ [message])
  end.

(** [TelegramService.get_messages] (with [limit=None]): any exception
    turns into the empty list. *)
Definition get_messages (tg : TelegramService) (identifier : str)
    (start_date end_date : datetime) : list msg_data :=
  match get_entity tg identifier with
  | Raise _ => []
  | Ok _ =>
      match read_stream start_date end_date
                        (iter_messages tg identifier end_date) [] with
      | Ok messages => messages
      | Raise _ => []
      end
  end.

End Telegram.


(** ** collector.py *)

Module Collector.
Import Py Exc Datetime.

(** Code that works on the database and may raise: the database comes
    back also when an exception does (every statement is committed as it
    is executed). *)
Definition M (A : Type) : Type := Database.t → result A * Database.t.

Definition ret {A : Type} (a : A) : M A := λ db, (Ok a, db).

Definition bind {A B : Type} (m : M A) (k : A → M B) : M B :=
  λ db, match m db with
        | (Ok a, db') => k a db'
        | (Raise e, db') => (Raise e, db')
        end.

(** [try: body / except Exception as e: handler]. *)
Definition try_except {A : Type} (body : M A) (handler : exception → M A)
  : M A :=
  λ db, match body db with
        | (Ok a, db') => (Ok a, db')
        | (Raise e, db') => handler e db'
        end.

Definition lift_result {A : Type} (r : result A) : M A := λ db, (r, db).

Definition lift_db {A : Type} (f : Database.t → A * Database.t) : M A :=
  λ db, let '(a, db') := f db in (Ok a, db').

Notation "'let!' x := m 'in' k" := (bind m (λ x, k))
  (at level 10, x name, m at level 100, k at level 200, only parsing).

(** One [add_message] call of the collector.  [source_id] is what
    [add_source] returned; were it [None], the NOT NULL constraint would
    fail with [IntegrityError], which [add_message] answers by [False]. *)
Definition store_message (source_id : option Z) (msg : Telegram.msg_data)
  : M bool :=
  match source_id with
  | Some source_id =>
      lift_db (λ db,
        Database.add_message db source_id (Telegram.message_id msg)
          (Telegram.date msg) (Some (Telegram.text msg))
          (Some (Telegram.link msg)) (Telegram.sender_id msg)
          (Telegram.sender_name msg))
  | None => ret false
  end.

(** The [for msg in messages] loop of [collect_from_source]. *)
Fixpoint store_messages (source_id : option Z)
    (messages : list Telegram.msg_data) (new_messages : nat) : M nat :=
  match messages with
  | [] => ret new_messages
  | msg :: rest =>
      let! is_new := store_message source_id msg in
      store_messages source_id rest
        (if is_new : bool then new_messages + 1 else new_messages)
  end.

(** [MessageCollector.collect_from_source].  [now] is the clock reading
    that [add_source] stores in [last_updated]. *)
Definition collect_from_source (tg : Telegram.TelegramService)
    (identifier source_type : str) (start_date end_date now : datetime)
  : M (nat * nat) :=
  try_except
    (let! entity_info := lift_result (Telegram.get_entity_info tg identifier) in
     let! source_id := lift_db (λ db,
       Database.add_source db identifier source_type
         (Telegram.info_title entity_info)
         (Telegram.info_username entity_info) now) in
     let messages := Telegram.get_messages tg identifier start_date end_date in
     let! new_messages := store_messages source_id messages 0 in
     ret (length messages, new_messages))
    (λ _, ret (0, 0)).

(** The [stats] dictionary. *)
Record stats : Type := mk_stats {
  total_sources : nat;
  total_messages : nat;
  new_messages : nat;
  failed_sources : nat }.

(** The [for identifier, source_type in sources] loop of
    [collect_from_all_sources] on its three local variables. *)
Fixpoint collect_loop (tg : Telegram.TelegramService)
    (sources : list (str * str)) (start_date end_date now : datetime)
    (total_messages total_new : nat) (failed_sources : list str)
  : M (nat * nat * list str) :=
  match sources with
  | [] => ret (total_messages, total_new, failed_sources)
  | (identifier, source_type) :: rest =>
      let! st := try_except
              (let! c := collect_from_source tg identifier source_type
                                             start_date end_date now in
               ret (total_messages + fst c, total_new + snd c,
                    failed_sources))
              (λ _, ret (total_messages, total_new,
                         failed_sources ++ [identifier])) in
      collect_loop tg rest start_date end_date now
                   (fst (fst st)) (snd (fst st)) (snd st)
  end.

(** [MessageCollector.collect_from_all_sources]. *)
Definition collect_from_all_sources (tg : Telegram.TelegramService)
    (sources : list (str * str)) (start_date end_date now : datetime)
  : M stats :=
  let! st := collect_loop tg sources start_date end_date now 0 0 [] in
  ret (mk_stats (length sources) (fst (fst st)) (snd (fst st))
                (length (snd st))).

(** The window of [collect_yesterday] when the clock reads [now]. *)
Definition yesterday (now : datetime) : datetime * datetime :=
  let today := replace_midnight now in
  let yesterday_start := (today - timedelta_days 1)%Z in
  let yesterday_end := today in
  (yesterday_start, yesterday_end).

(** [MessageCollector.collect_yesterday]. *)
Definition collect_yesterday (tg : Telegram.TelegramService)
    (sources : list (str * str)) (now : datetime) : M stats :=
  collect_from_all_sources tg sources (fst (yesterday now))
                           (snd (yesterday now)) now.

End Collector.

(** ** report_formatter.py *)

Module ReportFormatter.
Import Py Datetime.

(** The [date] entry of a message dictionary: text as SQLite hands it
    back, or a [datetime]. *)
Inductive date_value : Type :=
  | DateStr (s : str)
  | DateObj (t : datetime).

(** The entries of a message dictionary that [_format_message] reads; a
    missing key and a [None] value are both [None] here. *)
Record message : Type := mk_message {
  text : option str;
  link : option str;
  date : option date_value }.

Definition replacements : list (str * str) :=
  [ (lit "&", lit "&amp;"); (lit "<", lit "&lt;"); (lit ">", lit "&gt;") ].

(** [ReportFormatter._escape_html]: the dictionary is walked in
    insertion order. *)
Definition _escape_html (text : str) : str :=
  fold_left (λ text r, replace text (fst r) (snd r)) replacements text.

Definition max_length : nat := 300.

(** The truncation step of [_format_message]. *)
Definition truncate (text : option str) : option str :=
  match text with
  | Some t =>
      if truthy t && (max_length <? length t)
      then Some (take max_length t ++ lit "...")
      else Some t
  | None => None
  end.

Definition date_truthy (d : option date_value) : bool :=
  match d with
  | Some (DateStr s) => truthy s
  | Some (DateObj _) => true
  | None => false
  end.

Definition time_str (d : option date_value) : str :=
  match d with
  | Some (DateStr s) => s
  | Some (DateObj t) => strftime_HM t
  | None => []
  end.

Definition clock_emoji : char := 128336%N.
Definition arrow : char := 8599%N.

(** [ReportFormatter._format_message]. *)
Definition _format_message (message : message) : str :=
  let text := truncate (text message) in
  let formatted := [] in
  let formatted :=
    if date_truthy (date message)
    then formatted ++ [clock_emoji; 32%N] ++ time_str (date message) ++ [32%N]
    else formatted in
  let formatted :=
    if otruthy text
    then formatted ++ _escape_html (default [] text)
    else formatted in
  let formatted :=
    if otruthy (link message)
    then formatted ++ lit " <a href=" ++ [quote]
                   ++ default [] (link message) ++ [quote]
                   ++ lit ">" ++ [arrow] ++ lit "</a>"
    else formatted in
  formatted ++ [nl; nl].

End ReportFormatter.

(** ** digest_generator.py *)

Module DigestGenerator.
Import Py Exc Datetime.

(** The representative texts of [generate_digest_for_chat]. *)
Definition format_text (m : Database.message_view) : list str :=
  let msg := Database.mv_msg m in
  if otruthy (Database.msg_sender_name msg) && otruthy (Database.msg_text msg)
  then [lit "[" ++ default [] (Database.msg_sender_name msg) ++ lit "] "
          ++ default [] (Database.msg_text msg)]
  else if otruthy (Database.msg_text msg)
       then [default [] (Database.msg_text msg)]
       else [].

Definition message_texts (messages : list Database.message_view) : list str :=
  messages ≫= format_text.

(** The elements of [l] at the indices [skip], [skip + step],
    [skip + 2 * step], ... *)
Fixpoint stride {A : Type} (skip step : nat) (l : list A) : list A :=
  match l with
  | [] => []
  | x :: l' =>
      match skip with
      | O => x :: stride (step - 1) step l'
      | S k => stride k step l'
      end
  end.

(** The extended slice [l[::step]]; a step of zero raises
    [ValueError]. *)
Definition slice_step {A : Type} (l : list A) (step : nat) : result (list A) :=
  match step with
  | O => Raise ValueError
  | S _ => Ok (stride 0 step l)
  end.

Definition max_messages : nat := 200.

(** The down-sampling step of [generate_digest_for_chat]. *)
Definition limit_messages {A : Type} (message_texts : list A)
  : result (list A) :=
  if max_messages <? length message_texts then
    let step := length message_texts / max_messages in
    match slice_step message_texts step with
    | Ok sampled => Ok (take max_messages sampled)
    | Raise e => Raise e
    end
  else Ok message_texts.

(** [DigestGenerator.generate_digest_for_chat]; [bothub] is
    [BotHubClient.generate_digest]. *)
Definition generate_digest_for_chat (db : Database.t)
    (bothub : list str → nat → result (option str))
    (identifier : str) (start_date end_date : datetime) (max_topics : nat)
  : result (option str) :=
  match Database.get_source_by_identifier db identifier with
  | None => Ok None
  | Some source =>
      let messages :=
        Database.get_messages_by_date_range db start_date end_date
          (Some (Database.src_id source)) in
      match messages with
      | [] => Ok None
      | _ :: _ =>
          match message_texts messages with
          | [] => Ok None
          | (_ :: _) as texts =>
              match limit_messages texts with
              | Raise e => Raise e
              | Ok texts =>
                  match bothub texts max_topics with
                  | Ok digest => Ok digest
                  | Raise _ => Ok None
                  end
              end
          end
      end
  end.

End DigestGenerator.

(** ** Reference renderings

    What one character, the time prefix and the permalink marker look
    like in the output of [_format_message]; the properties below
    compare the code with them. *)

Module Rendering.
Import Py Datetime ReportFormatter.

(** The entity that stands for one character of a message body. *)
Definition escape_char (c : char) : str :=
  if N.eqb c 38 then lit "&amp;"
  else if N.eqb c 60 then lit "&lt;"
  else if N.eqb c 62 then lit "&gt;"
  else [c].

Definition time_prefix (d : option date_value) : str :=
  match d with
  | Some (DateStr []) | None => []
  | Some (DateStr (c :: s)) => [clock_emoji; 32%N] ++ (c :: s) ++ [32%N]
  | Some (DateObj t) => [clock_emoji; 32%N] ++ strftime_HM t ++ [32%N]
  end.

(** The link goes between the quotes as it is. *)
Definition link_marker (l : option str) : str :=
  match l with
  | Some (c :: s) =>
      lit " <a href=" ++ [quote] ++ (c :: s) ++ [quote]
        ++ lit ">" ++ [arrow] ++ lit "</a>"
  | _ => []
  end.

(** The body as it is handed to the escaping step. *)
Definition shown_body (t : option str) : str :=
  match t with
  | Some t => if 300 <? length t then take 300 t ++ lit "..." else t
  | None => []
  end.

End Rendering.

(** ** Reference chunking

    How the lines of a text are spread over the parts that
    [_split_message] returns: a part holds a run of consecutive lines,
    the first of them not blank, and blank lines may have been skipped
    just before it. *)

Module Chunking.
Import Py.

Definition blank_run (ls : list str) : Prop := Forall (λ l, l = []) ls.

Record chunk : Type := mk_chunk {
  skipped : list str;
  held : list str }.

Definition chunk_lines (c : chunk) : list str := skipped c ++ held c.

Definition chunk_text (c : chunk) : str := join [nl] (held c).

(** A run of lines that starts with a line that is not blank. *)
Definition starts_nonblank (g : list str) : Prop :=
  ∃ l ls, g = l :: ls ∧ l ≠ [].

Definition chunk_ok (c : chunk) : Prop :=
  blank_run (skipped c) ∧ starts_nonblank (held c).

(** Every part (or line) has at most [max_length] characters. *)
Definition within (max_length : nat) (parts : list str) : Prop :=
  Forall (λ p, length p ≤ max_length) parts.

(** The state of the loop after the lines [done]: the finished parts are
    the texts of [chunks], the part in progress holds the lines [g], and
    the blank lines [gap] were skipped since the last part was closed. *)
Definition loop_state (done parts : list str) (cur : str) : Prop :=
  ∃ chunks gap g,
    parts = chunk_text <$> chunks
    ∧ Forall chunk_ok chunks
    ∧ blank_run gap
    ∧ cur = join [nl] g
    ∧ (g = [] ∨ starts_nonblank g)
    ∧ done = (chunks ≫= chunk_lines) ++ gap ++ g.

(** A text whose first line is blank. *)
Definition blank_first : str := nl :: lit "abc".

(** A text of 9000 characters: 89 lines of 99 characters and one of
    100. *)
Definition report_9000 : str :=
  concat (replicate 89 (replicate 99 97%N ++ [nl])) ++ replicate 100 98%N.

End Chunking.

(** ** Scenarios

    Concrete databases and collaborators on which the properties below
    are instantiated. *)

Module Scenario.
Import Py Exc Datetime Database.

Local Open Scope Z_scope.

(** A ledger with one channel whose title and handle are known. *)
Definition titled : Database.t :=
  (add_source empty (lit "@news") (lit "channel")
              (Some (lit "News")) (Some (lit "news")) 0).2.

(** The report of one day saved by a first run, and the database as a
    later run of the program finds it. *)
Definition report_day : str := lit "2024-01-01".

Definition first_run : Database.t :=
  (save_report (connect empty) report_day (lit "first")).2.

Definition rerun : Database.t := connect first_run.

Definition greeting : payload :=
  mk_payload 1000 (Some (lit "hello")) None None None.

Definition greeting_again : payload :=
  mk_payload 2000 (Some (lit "hello again")) None (Some 9) (Some (lit "Ann")).

(** A message dictionary whose body has 301 characters. *)
Definition long_post : ReportFormatter.message :=
  ReportFormatter.mk_message (Some (replicate 301 60%N))
                             (Some (lit "https://t.me/news/1")) None.

(** Day [n] begins at [midnight n]. *)
Definition midnight (n : Z) : datetime := n * day.

(** A chat with four messages around day 19723, stored in the order in
    which they were fetched (newest first): 00:00:00 of the next day,
    12:00:00 and 00:00:00 of the day, 23:59:59 of the day before. *)
Definition around_day : Database.t :=
  let db := (add_source empty (lit "@chat") (lit "chat")
                        (Some (lit "Chat")) None 0).2 in
  let db := (add_message db 1 104 (midnight 19724)
                         (Some (lit "d")) None None None).2 in
  let db := (add_message db 1 103 (midnight 19723 + 12 * hour)
                         (Some (lit "c")) None None None).2 in
  let db := (add_message db 1 102 (midnight 19723)
                         (Some (lit "b")) None None None).2 in
  (add_message db 1 101 (midnight 19723 - second)
               (Some (lit "a")) None None None).2.

(** A Telegram account for which ["@gone"] cannot be resolved; every
    other identifier is a channel with one post on day 19723. *)
Definition flaky : Telegram.TelegramService :=
  Telegram.mk_service
    (λ identifier,
       if decide (identifier = lit "@gone") then Raise CollaboratorError
       else Ok (Telegram.mk_entity 7 (Telegram.Channel true)
                                   (Some (lit "News")) (Some (lit "news"))))
    (λ identifier offset_date,
       Telegram.Yield
         (Telegram.mk_msg_data 501 (midnight 19723 + 9 * hour) (lit "post")
                               (lit "https://t.me/news/501") None None)
         Telegram.Done).

Definition configured : list (str * str) :=
  [ (lit "@gone", lit "channel"); (lit "@news", lit "channel") ].

(** The clock of a run on day 19724, at 08:30. *)
Definition morning_after : datetime :=
  midnight 19724 + 8 * hour + 30 * minute.

End Scenario.

(** ** database.py: statistics and grouping *)

Module DatabaseViews.
Import Py Datetime Database.

(** The dictionary of [get_stats]: three COUNT queries. *)
Record counts : Type := mk_counts {
  n_sources : nat;
  n_messages : nat;
  n_reports : nat }.

(** [Database.get_stats]. *)
Definition get_stats (db : t) : counts :=
  mk_counts (length (sources db)) (length (messages db))
            (length (reports db)).

(** A dictionary from identifiers to lists of rows, in insertion order
    (the order in which [items()] walks it). *)
Abbreviation groups := (list (list N * list message_view)) (only parsing).

(** [grouped[identifier]] when the key is present. *)
Fixpoint lookup_group (identifier : str) (grouped : groups)
  : option (list message_view) :=
  match grouped with
  | [] => None
  | (k, v) :: rest =>
      if decide (k = identifier) then Some v
      else lookup_group identifier rest
  end.

(** One turn of the loop of [get_messages_grouped_by_source]: a new key
    gets an empty list, then the row is appended to the key's list. *)
Fixpoint append_group (identifier : str) (msg : message_view)
    (grouped : groups) : groups :=
  match grouped with
  | [] => [(identifier, [msg])]
  | (k, v) :: rest =>
      if decide (k = identifier) then (k, v ++ [msg]) :: rest
      else (k, v) :: append_group identifier msg rest
  end.

Definition group_rows (rows : list message_view) : groups :=
  foldl (λ grouped msg, append_group (mv_identifier msg) msg grouped) [] rows.

(** [Database.get_messages_grouped_by_source]. *)
Definition get_messages_grouped_by_source (db : t)
    (start_date end_date : datetime) : groups :=
  group_rows (get_messages_by_date_range db start_date end_date None).

End DatabaseViews.

(** ** collector.py: the other windows *)

Module CollectorWindows.
Import Py Exc Datetime Collector.

(** The window of [collect_today]; the clock is read twice, first for
    the start of the day and then for the end of the window. *)
Definition today (now_start now_end : datetime) : datetime * datetime :=
  let today_start := replace_midnight now_start in
  let now := now_end in
  (today_start, now).

(** [MessageCollector.collect_today]. *)
Definition collect_today (tg : Telegram.TelegramService)
    (sources : list (str * str)) (now_start now_end : datetime) : M stats :=
  collect_from_all_sources tg sources (today now_start now_end).1
                           (today now_start now_end).2 now_end.

(** The window of [collect_last_n_hours]. *)
Definition last_n_hours (now : datetime) (hours : Z) : datetime * datetime :=
  let end_time := now in
  let start_time := (end_time - timedelta_hours hours)%Z in
  (start_time, end_time).

(** [MessageCollector.collect_last_n_hours]. *)
Definition collect_last_n_hours (tg : Telegram.TelegramService)
    (sources : list (str * str)) (hours : Z) (now : datetime) : M stats :=
  collect_from_all_sources tg sources (last_n_hours now hours).1
                           (last_n_hours now hours).2 now.

End CollectorWindows.

(** ** telegram_client.py: sending *)

Module Delivery.
Import Py Exc.

(** The destination as [send_message] sees it: the texts delivered so
    far, and whether [client.send_message] accepts the next text given
    those (it raises otherwise).  An accepted text is delivered. *)
Record outbox : Type := mk_outbox {
  accepts : list (list N) → list N → bool }.

(** One [await self.client.send_message(chat_id, part, parse_mode)]. *)
Definition client_send (o : outbox) (delivered : list str) (text : str)
  : result unit * list str :=
  if accepts o delivered text then (Ok (), delivered ++ [text])
  else (Raise CollaboratorError, delivered).

(** The [for i, part in enumerate(parts)] loop; the pause between two
    parts has no effect on what is delivered. *)
Fixpoint send_parts (o : outbox) (parts : list str) (delivered : list str)
  : result unit * list str :=
  match parts with
  | [] => (Ok (), delivered)
  | part :: rest =>
      match client_send o delivered part with
      | (Ok _, delivered') => send_parts o rest delivered'
      | (Raise e, delivered') => (Raise e, delivered')
      end
  end.

Definition max_length : nat := 4000.

(** [TelegramService.send_message]: [Some (flag, delivered)] when the
    call returns, [None] when [_split_message] does not. *)
Definition send_message (o : outbox) (text : str) (delivered : list str)
  : option (bool * list str) :=
  if length text <=? max_length then
    match client_send o delivered text with
    | (Ok _, delivered') => Some (true, delivered')
    | (Raise _, delivered') => Some (false, delivered')
    end
  else
    match Telegram._split_message text max_length with
    | None => None
    | Some parts =>
        match send_parts o parts delivered with
        | (Ok _, delivered') => Some (true, delivered')
        | (Raise _, delivered') => Some (false, delivered')
        end
    end.

End Delivery.

(** ** digest_generator.py: counting *)

Module DigestCounts.
Import Py Datetime Database.

(** [DigestGenerator.get_chat_message_count]. *)
Definition get_chat_message_count (db : t) (identifier : str)
    (start_date end_date : datetime) : nat :=
  match get_source_by_identifier db identifier with
  | None => 0
  | Some source =>
      length (get_messages_by_date_range db start_date end_date
                                         (Some (src_id source)))
  end.

End DigestCounts.

(** ** config.py *)

Module Config.
Import Py.

(** [c.isspace()] for one character: the Unicode white space. *)
Definition isspace (c : char) : bool :=
  ((9 <=? c) && (c <=? 13) || (28 <=? c) && (c <=? 32)
   || (c =? 133) || (c =? 160) || (c =? 5760)
   || (8192 <=? c) && (c <=? 8202)
   || (c =? 8232) || (c =? 8233) || (c =? 8239) || (c =? 8287)
   || (c =? 12288))%N.

Fixpoint lstrip (s : str) : str :=
  match s with
  | [] => []
  | c :: s' => if isspace c then lstrip s' else s
  end.

Definition rstrip (s : str) : str := reverse (lstrip (reverse s)).

(** [s.strip()]. *)
Definition strip (s : str) : str := rstrip (lstrip s).

(** [sep in s] for a one-character [sep]. *)
Definition contains (sep : char) (s : str) : bool :=
  bool_decide (sep ∈ s).

(** [s.split(sep, 1)] for a one-character [sep] that occurs in [s]: what
    stands before the first [sep] and what follows it. *)
Fixpoint split_once (sep : char) (s : str) : str * str :=
  match s with
  | [] => ([], [])
  | c :: s' =>
      if N.eqb c sep then ([], s')
      else let '(before, after) := split_once sep s' in (c :: before, after)
  end.

Definition colon : char := 58%N.
Definition comma : char := 44%N.

(** The body of the loop of [get_channels]. *)
Definition parse_item (item : str) : str * str :=
  let item := strip item in
  if contains colon item then
    let '(identifier, channel_type) := split_once colon item in
    (strip identifier, strip channel_type)
  else (item, lit "channel").

(** [Config.get_channels]; [channels_str] is
    [os.getenv("CHANNELS", "")]. *)
Definition get_channels (channels_str : str) : list (str * str) :=
  if truthy channels_str
  then parse_item <$> split comma channels_str
  else [].

(** No white space at the front. *)
Definition starts_clean (s : str) : Prop :=
  ∀ c, head s = Some c → isspace c = false.

(** An entry as [get_channels] yields it: no surrounding white space, no
    comma, and no colon in the identifier. *)
Definition well_formed (source : str * str) : Prop :=
  strip source.1 = source.1 ∧ strip source.2 = source.2
  ∧ (comma ∉ source.1) ∧ (colon ∉ source.1) ∧ (comma ∉ source.2).

#[global] Instance well_formed_dec source : Decision (well_formed source).
Proof. unfold well_formed. apply _. Defined.

(** How a list of sources is written in CHANNELS. *)
Definition render_item (source : str * str) : str :=
  source.1 ++ [colon] ++ source.2.

Definition render (sources : list (str * str)) : str :=
  join [comma] (render_item <$> sources).

End Config.

(** ** What a run of the collector leaves behind *)

Module Rerun.
Import Py Exc Datetime Database.

(** The number of messages that [collect_from_source] reports as
    fetched for a source. *)
Definition fetched (tg : Telegram.TelegramService) (identifier : str)
    (start_date end_date : datetime) : nat :=
  match Telegram.get_entity tg identifier with
  | Ok _ => length (Telegram.get_messages tg identifier start_date end_date)
  | Raise _ => 0
  end.

(** What all configured sources deliver in a window. *)
Definition fetched_total (tg : Telegram.TelegramService)
    (sources : list (str * str)) (start_date end_date : datetime) : nat :=
  sum_list ((λ s, fetched tg s.1 start_date end_date) <$> sources).

(** A source is settled in a database when it cannot be resolved, or it
    has a row and every message of the window that the client delivers
    for it is stored under the key of that row. *)
Definition settled (tg : Telegram.TelegramService)
    (start_date end_date : datetime) (db : t) (identifier : str) : Prop :=
  (∃ e, Telegram.get_entity tg identifier = Raise e)
  ∨ ∃ r, get_source_by_identifier db identifier = Some r
         ∧ ∀ m, m ∈ Telegram.get_messages tg identifier start_date end_date →
                (src_id r, Telegram.message_id m) ∈ msg_key <$> messages db.

(** Source rows keep their keys from one database to a later one. *)
Definition keeps_keys (db db' : t) : Prop :=
  ∀ identifier r,
    get_source_by_identifier db identifier = Some r →
    ∃ r', get_source_by_identifier db' identifier = Some r'
          ∧ src_id r' = src_id r.

End Rerun.

(** ** Streams of the Telegram client *)

Module Streams.
Import Py Exc Datetime Telegram.

(** The messages of a stream, in the order of delivery. *)
Fixpoint delivered (s : stream) : list msg_data :=
  match s with
  | Done | Fail _ => []
  | Yield m rest => m :: delivered rest
  end.



End Streams.

(** * Properties *)

(** ** Down-sampling of the representative texts *)

Section Sampling.
Import Exc DigestGenerator.
Context {A : Type}.
Implicit Types l texts : list A.

Lemma stride_sublist skip step l : stride skip step l `sublist_of` l.
Proof.
  revert skip. induction l as [|x l IH]; intros skip; simpl.
  - constructor.
  - destruct skip as [|k].
    + apply sublist_skip, IH.
    + apply sublist_cons, IH.
Qed.

(** A stride of [step] misses at most [step - 1] elements between two
    that it takes. *)
Lemma stride_covers skip step l :
  1 ≤ step → length l ≤ skip + step * length (stride skip step l).
Proof.
  intros Hstep. revert skip.
  induction l as [|x l IH]; intros skip; simpl; [lia|].
  destruct skip as [|k]; simpl.
  - specialize (IH (step - 1)). nia.
  - specialize (IH k). lia.
Qed.

Lemma stride_one l : stride 0 1 l = l.
Proof. induction l as [|x l IH]; simpl; [done|]. by rewrite IH. Qed.

Lemma step_positive texts :
  max_messages < length texts → 1 ≤ length texts / max_messages.
Proof.
  intros H. unfold max_messages in *.
  apply Nat.div_le_lower_bound; lia.
Qed.

Lemma step_below_twice texts :
  max_messages < length texts < 2 * max_messages →
  length texts / max_messages = 1.
Proof.
  intros H. unfold max_messages in *.
  symmetry. apply (Nat.div_unique _ _ _ (length texts - 200)); lia.
Qed.

(** The sampling step written out for a list above the cap. *)
Lemma limit_messages_above texts :
  max_messages < length texts →
  limit_messages texts
  = Ok (take max_messages (stride 0 (length texts / max_messages) texts)).
Proof.
  intros H. unfold limit_messages.
  destruct (Nat.ltb_spec max_messages (length texts)) as [_|]; [|lia].
  pose proof (step_positive texts H) as Hstep.
  unfold slice_step.
  destruct (length texts / max_messages) as [|k]; [lia|done].
Qed.

Lemma limit_messages_below texts :
  length texts ≤ max_messages → limit_messages texts = Ok texts.
Proof.
  intros H. unfold limit_messages.
  destruct (Nat.ltb_spec max_messages (length texts)); [lia|done].
Qed.

Lemma strided_at_least_cap texts :
  max_messages < length texts →
  max_messages ≤ length (stride 0 (length texts / max_messages) texts).
Proof.
  intros H.
  pose proof (step_positive texts H) as Hstep.
  pose proof (stride_covers 0 _ texts Hstep) as Hcov.
  pose proof (Nat.Div0.mul_div_le (length texts) max_messages) as Hdiv.
  unfold max_messages in *.
  destruct (decide (200 ≤ length (stride 0 (length texts / 200) texts)));
    [done|].
  nia.
Qed.

(** C7.  Down-sampling respects the cap and preserves order: the sampling
    step of [generate_digest_for_chat] never raises; on a list of more
    than 200 texts it takes stride [count // 200] and yields at most 200
    entries that form an order-preserving subsequence of the input; a
    list of at most 200 texts is passed through unchanged. *)
Theorem limit_messages_cap_and_order texts :
  ∃ sampled,
    limit_messages texts = Ok sampled
    ∧ (200 < length texts →
         sampled = take 200 (stride 0 (length texts / 200) texts)
         ∧ length sampled ≤ 200
         ∧ sampled `sublist_of` texts)
    ∧ (length texts ≤ 200 → sampled = texts).
Proof.
  destruct (decide (length texts ≤ max_messages)) as [Hle|Hgt].
  - exists texts. split; [by apply limit_messages_below|].
    unfold max_messages in Hle. split; [lia|done].
  - exists (take max_messages (stride 0 (length texts / max_messages) texts)).
    split; [apply limit_messages_above; lia|].
    unfold max_messages in *. split; [|lia].
    intros _. split; [done|]. split.
    + rewrite length_take. lia.
    + etrans; [apply sublist_take|apply stride_sublist].
Qed.

(** C9.  Above the cap the sample has exactly 200 entries: the stride
    [n // 200] is at least 1, the strided selection has at least 200
    elements before it is cut to the first 200, and for 200 < n < 400
    the stride is 1 and the sample is the first 200 texts. *)
Theorem limit_messages_exactly_cap texts :
  200 < length texts →
  1 ≤ length texts / 200
  ∧ 200 ≤ length (stride 0 (length texts / 200) texts)
  ∧ ∃ sampled,
      limit_messages texts = Ok sampled
      ∧ length sampled = 200
      ∧ (length texts < 400 →
           length texts / 200 = 1 ∧ sampled = take 200 texts).
Proof.
  intros H.
  pose proof (step_positive texts H) as Hstep.
  pose proof (strided_at_least_cap texts H) as Hlen.
  unfold max_messages in *.
  split; [done|]. split; [done|].
  exists (take 200 (stride 0 (length texts / 200) texts)).
  split; [by apply limit_messages_above|]. split.
  - rewrite length_take. lia.
  - intros Hlt.
    assert (length texts / 200 = 1) as Hone
      by (apply (step_below_twice texts); unfold max_messages; lia).
    split; [done|]. by rewrite Hone, stride_one.
Qed.

End Sampling.

(** ** Rendering of one message *)

Section Escaping.
Import Py ReportFormatter Rendering.

Lemma replace_single c new s :
  replace s [c] new = s ≫= (λ x, if N.eqb c x then new else [x]).
Proof.
  unfold replace.
  induction s as [|x s IH]; [done|].
  cbn [replace_from startswith length Nat.sub].
  replace (startswith s []) with true by (by destruct s).
  rewrite andb_true_r, IH, bind_cons.
  by destruct (N.eqb c x).
Qed.

Lemma escape_char_steps (c : N) :
  (([c] ≫= (λ x : N, if N.eqb 38 x then lit "&amp;" else [x]))
     ≫= (λ x : N, if N.eqb 60 x then lit "&lt;" else [x]))
     ≫= (λ x : N, if N.eqb 62 x then lit "&gt;" else [x])
  = escape_char c.
Proof.
  unfold escape_char.
  destruct (N.eqb_spec c 38) as [->|H38]; [done|].
  destruct (N.eqb_spec c 60) as [->|H60]; [done|].
  destruct (N.eqb_spec c 62) as [->|H62]; [done|].
  cbn [mbind list_bind app].
  destruct (N.eqb_spec 38 c); [congruence|]. cbn [mbind list_bind app].
  destruct (N.eqb_spec 60 c); [congruence|]. cbn [mbind list_bind app].
  by destruct (N.eqb_spec 62 c); [congruence|].
Qed.

(** The three replacements in a row amount to one pass that turns every
    character into its entity: no entity is escaped again. *)
Lemma escape_html_chars t : _escape_html t = t ≫= escape_char.
Proof.
  unfold _escape_html, replacements. cbn [fold_left fst snd].
  change (lit "&") with [38%N]. change (lit "<") with [60%N].
  change (lit ">") with [62%N].
  rewrite !replace_single.
  induction t as [|c t IH]; [done|].
  change (c :: t) with ([c] ++ t).
  rewrite !bind_app, IH. f_equal.
  rewrite escape_char_steps. cbn [mbind list_bind]. by rewrite app_nil_r.
Qed.

Lemma truncate_shown t :
  default [] (truncate t) = shown_body t.
Proof.
  destruct t as [t|]; [|done]. unfold truncate, shown_body, max_length.
  destruct t as [|c t]; [done|]. cbn [truthy andb].
  by destruct (300 <? length (c :: t)).
Qed.

Lemma format_message_pieces m :
  _format_message m
  = time_prefix (date m) ++ _escape_html (shown_body (text m))
      ++ link_marker (link m) ++ [nl; nl].
Proof.
  unfold _format_message. rewrite <-truncate_shown.
  assert (date_prefix :
    (if date_truthy (date m)
     then [] ++ [clock_emoji; 32%N] ++ time_str (date m) ++ [32%N]
     else []) = time_prefix (date m)).
  { destruct (date m) as [[[|c s]|t]|]; done. }
  rewrite date_prefix. clear date_prefix.
  assert (body :
    ∀ pre, (if otruthy (truncate (text m))
            then pre ++ _escape_html (default [] (truncate (text m)))
            else pre)
           = pre ++ _escape_html (default [] (truncate (text m)))).
  { intros pre. destruct (truncate (text m)) as [[|c s]|]; simpl;
      by rewrite ?app_nil_r. }
  rewrite body. clear body.
  destruct (link m) as [[|c s]|]; cbn [otruthy truthy link_marker default];
    by rewrite <-?app_assoc.
Qed.

(** C6.  Per-message rendering truncates, then escapes in the fixed
    order: the escaping is the replacement of [&], then [<], then [>],
    which turns each character of the body into its entity exactly once;
    a body of more than 300 characters is cut to its first 300 followed
    by ["..."] before it is escaped; the permalink marker is appended as
    it is; and the body ["A & <b>bold</b>"] renders as
    ["A &amp; &lt;b&gt;bold&lt;/b&gt;"]. *)
Theorem format_message_truncates_then_escapes :
  (∀ t, _escape_html t
        = replace (replace (replace t (lit "&") (lit "&amp;"))
                           (lit "<") (lit "&lt;"))
                  (lit ">") (lit "&gt;"))
  ∧ (∀ t, _escape_html t = t ≫= escape_char)
  ∧ (∀ m t, text m = Some t → 300 < length t →
       _format_message m
       = time_prefix (date m) ++ _escape_html (take 300 t ++ lit "...")
           ++ link_marker (link m) ++ [nl; nl])
  ∧ (∀ m t, text m = Some t → length t ≤ 300 →
       _format_message m
       = time_prefix (date m) ++ _escape_html t
           ++ link_marker (link m) ++ [nl; nl])
  ∧ _escape_html (lit "A & <b>bold</b>")
    = lit "A &amp; &lt;b&gt;bold&lt;/b&gt;"
  ∧ (∀ d l, _format_message (mk_message (Some (lit "A & <b>bold</b>")) l d)
       = time_prefix d ++ lit "A &amp; &lt;b&gt;bold&lt;/b&gt;"
           ++ link_marker l ++ [nl; nl]).
Proof.
  split; [done|]. split; [apply escape_html_chars|].
  split; [|split; [|split]].
  - intros m t Ht Hlen. rewrite format_message_pieces, Ht.
    unfold shown_body.
    by destruct (Nat.ltb_spec 300 (length t)); [|lia].
  - intros m t Ht Hlen. rewrite format_message_pieces, Ht.
    unfold shown_body.
    by destruct (Nat.ltb_spec 300 (length t)); [lia|].
  - by vm_compute.
  - intros d l. by rewrite format_message_pieces.
Qed.

End Escaping.

(** ** Chunking of outgoing text *)

Section SplitJoin.
Import Py.

Lemma truthy_true s : truthy s = true ↔ s ≠ [].
Proof. by destruct s. Qed.

Lemma truthy_false s : truthy s = false ↔ s = [].
Proof. by destruct s. Qed.

Lemma split_not_nil sep s : split sep s ≠ [].
Proof.
  destruct s as [|c s]; simpl; [done|].
  destruct (N.eqb c sep); [done|]. by destruct (split sep s).
Qed.

(** Joining the lines of a text with newlines gives the text back. *)
Lemma join_split sep s : join [sep] (split sep s) = s.
Proof.
  induction s as [|c s IH]; [done|]. simpl.
  pose proof (split_not_nil sep s) as Hne.
  destruct (N.eqb_spec c sep) as [->|Hc].
  - destruct (split sep s) as [|l ls]; [done|]. simpl in *. by rewrite IH.
  - destruct (split sep s) as [|l ls]; [done|].
    rewrite <-IH. by destruct ls.
Qed.

Lemma join_snoc sep (g : list str) l :
  g ≠ [] → join sep (g ++ [l]) = join sep g ++ sep ++ l.
Proof.
  induction g as [|x g IH]; [done|]. intros _.
  destruct g as [|y g]; [done|].
  change (join sep ((x :: y :: g) ++ [l]))
    with (x ++ sep ++ join sep ((y :: g) ++ [l])).
  rewrite IH by done.
  change (join sep (x :: y :: g)) with (x ++ sep ++ join sep (y :: g)).
  by rewrite <-!app_assoc.
Qed.

Lemma join_app sep (g1 g2 : list str) :
  g1 ≠ [] → g2 ≠ [] →
  join sep (g1 ++ g2) = join sep g1 ++ sep ++ join sep g2.
Proof.
  intros H1 H2. induction g1 as [|x g1 IH]; [done|].
  destruct g1 as [|y g1].
  - destruct g2; done.
  - change (join sep ((x :: y :: g1) ++ g2))
      with (x ++ sep ++ join sep ((y :: g1) ++ g2)).
    rewrite IH by done.
    change (join sep (x :: y :: g1)) with (x ++ sep ++ join sep (y :: g1)).
    by rewrite <-!app_assoc.
Qed.

Lemma join_concat sep (groups : list (list str)) :
  Forall (λ g, g ≠ []) groups →
  join sep (join sep <$> groups) = join sep (concat groups).
Proof.
  induction 1 as [|g groups Hg Hall IH]; [done|].
  destruct groups as [|g' groups].
  - simpl. by rewrite app_nil_r.
  - change (join sep (join sep <$> g :: g' :: groups))
      with (join sep g ++ sep ++ join sep (join sep <$> g' :: groups)).
    rewrite IH. change (concat (g :: g' :: groups))
      with (g ++ concat (g' :: groups)).
    rewrite join_app; [done|done|].
    apply Forall_cons in Hall as [Hg' _]. simpl. by destruct g'.
Qed.

End SplitJoin.

Section Chunks.
Import Py Telegram Chunking.

Implicit Types (line cur : list N) (parts lines : list (list N)).

Lemma hard_split_bound max_length fuel line parts :
  1 ≤ max_length → length line ≤ fuel → within max_length parts →
  ∃ parts' line',
    hard_split fuel max_length line parts = Some (parts', line')
    ∧ within max_length parts' ∧ length line' ≤ max_length.
Proof.
  intros Hmax. revert line parts.
  induction fuel as [|fuel IH]; intros line parts Hfuel Hparts.
  - exists parts, line. simpl.
    destruct (Nat.ltb_spec max_length (length line)); [lia|]. done.
  - simpl. destruct (Nat.ltb_spec max_length (length line)) as [Hlong|Hshort].
    + apply IH.
      * rewrite length_drop. lia.
      * apply Forall_app. split; [done|].
        apply Forall_singleton. rewrite length_take. lia.
    + by exists parts, line.
Qed.

Lemma split_loop_bound max_length lines parts cur :
  1 ≤ max_length → within max_length parts → length cur ≤ max_length →
  ∃ parts' cur',
    split_loop max_length lines parts cur = Some (parts', cur')
    ∧ within max_length parts' ∧ length cur' ≤ max_length.
Proof.
  intros Hmax. revert parts cur.
  induction lines as [|line lines IH]; intros parts cur Hparts Hcur.
  - by exists parts, cur.
  - simpl.
    destruct (Nat.ltb_spec max_length (length cur + length line + 1))
      as [Hflush|Hfits].
    + assert (within max_length
                (if truthy cur then parts ++ [cur] else parts)) as Hparts'.
      { destruct (truthy cur); [|done].
        apply Forall_app; split; [done|]. by apply Forall_singleton. }
      destruct (Nat.ltb_spec max_length (length line)) as [Hlong|Hshort].
      * destruct (hard_split_bound max_length (length line) line _
                    Hmax (Nat.le_refl _) Hparts')
          as (parts2 & line2 & -> & Hparts2 & Hline2).
        by apply IH.
      * by apply IH.
    + apply IH; [done|].
      destruct cur as [|c cur]; simpl in *; [lia|].
      rewrite !length_app. simpl. lia.
Qed.

(** Every part fits the budget, whatever the text. *)
Lemma split_message_bound text max_length :
  1 ≤ max_length →
  ∃ parts, _split_message text max_length = Some parts
           ∧ within max_length parts.
Proof.
  intros Hmax. unfold _split_message.
  destruct (split_loop_bound max_length (split nl text) [] [] Hmax)
    as (parts & cur & -> & Hparts & Hcur); [constructor|simpl; lia|].
  eexists. split; [done|].
  destruct (truthy cur); [|done].
  apply Forall_app; split; [done|]. by apply Forall_singleton.
Qed.

Lemma starts_nonblank_join g : starts_nonblank g → join [nl] g ≠ [].
Proof.
  intros (l & ls & -> & Hl). destruct ls as [|l' ls]; [done|].
  simpl. by destruct l.
Qed.

Lemma starts_nonblank_snoc g l : starts_nonblank g → starts_nonblank (g ++ [l]).
Proof. intros (x & ls & -> & Hx). by exists x, (ls ++ [l]). Qed.

Lemma starts_nonblank_not_nil g : starts_nonblank g → g ≠ [].
Proof. by intros (x & ls & -> & _). Qed.

(** One line that is not split: it opens a part, joins the part in
    progress, or is skipped as a blank line. *)
Lemma loop_state_step max_length done parts cur line :
  length line ≤ max_length →
  loop_state done parts cur →
  ∃ parts' cur',
    (∀ rest, split_loop max_length (line :: rest) parts cur
             = split_loop max_length rest parts' cur')
    ∧ loop_state (done ++ [line]) parts' cur'.
Proof.
  intros Hline (chunks & gap & g & -> & Hchunks & Hgap & -> & Hg & ->).
  destruct Hg as [->|Hg].
  - (* no part in progress *)
    exists (chunk_text <$> chunks), line. split.
    + intros rest. simpl.
      destruct (Nat.ltb_spec max_length (length line + 1)); [|done].
      by destruct (Nat.ltb_spec max_length (length line)); [lia|].
    + destruct line as [|c line].
      * exists chunks, (gap ++ [[]]), []. repeat split; try done.
        -- apply Forall_app. split; [done|]. by apply Forall_singleton.
        -- by left.
        -- by rewrite !app_nil_r, <-!app_assoc.
      * exists chunks, gap, [c :: line]. repeat split; try done.
        -- right. by exists (c :: line), [].
        -- by rewrite !app_nil_r, <-!app_assoc.
  - (* a part in progress *)
    pose proof (starts_nonblank_join g Hg) as Hcur.
    apply truthy_true in Hcur.
    destruct (decide (max_length < length (join [nl] g) + length line + 1))
      as [Hflush|Hfits].
    + exists (chunk_text <$> (chunks ++ [mk_chunk gap g])), line. split.
      * intros rest. simpl.
        destruct (Nat.ltb_spec max_length
                    (length (join [nl] g) + length line + 1)); [|lia].
        rewrite Hcur.
        destruct (Nat.ltb_spec max_length (length line)); [lia|].
        by rewrite fmap_app.
      * assert (Forall chunk_ok (chunks ++ [mk_chunk gap g])) as Hchunks'.
        { apply Forall_app. split; [done|]. by apply Forall_singleton. }
        destruct line as [|c line].
        -- exists (chunks ++ [mk_chunk gap g]), [[]], [].
           repeat split; try done.
           ++ by apply Forall_singleton.
           ++ by left.
           ++ rewrite bind_app. simpl. unfold chunk_lines. simpl.
              by rewrite !app_nil_r, <-!app_assoc.
        -- exists (chunks ++ [mk_chunk gap g]), [], [c :: line].
           repeat split; try done.
           ++ constructor.
           ++ right. by exists (c :: line), [].
           ++ rewrite bind_app. simpl. unfold chunk_lines. simpl.
              by rewrite !app_nil_r, <-!app_assoc.
    + exists (chunk_text <$> chunks), (join [nl] g ++ [nl] ++ line). split.
      * intros rest. simpl.
        destruct (Nat.ltb_spec max_length
                    (length (join [nl] g) + length line + 1)); [lia|].
        by rewrite Hcur, <-app_assoc.
      * exists chunks, gap, (g ++ [line]). repeat split; try done.
        -- rewrite join_snoc; [done|]. by apply starts_nonblank_not_nil.
        -- right. by apply starts_nonblank_snoc.
        -- by rewrite <-!app_assoc.
Qed.

Lemma split_loop_state max_length lines done parts cur :
  within max_length lines →
  loop_state done parts cur →
  ∃ parts' cur',
    split_loop max_length lines parts cur = Some (parts', cur')
    ∧ loop_state (done ++ lines) parts' cur'.
Proof.
  intros Hlines. revert done parts cur.
  induction Hlines as [|line lines Hline Hlines IH]; intros done parts cur Hst.
  - exists parts, cur. by rewrite app_nil_r.
  - destruct (loop_state_step max_length done parts cur line Hline Hst)
      as (parts1 & cur1 & Hstep & Hst1).
    destruct (IH _ _ _ Hst1) as (parts2 & cur2 & Hrun & Hst2).
    exists parts2, cur2. rewrite Hstep, Hrun. split; [done|].
    by rewrite <-app_assoc in Hst2.
Qed.

(** When no line is longer than the budget, the lines of the text are
    those of the parts, in order, with runs of blank lines skipped only
    in front of a part or after the last one. *)
Lemma split_message_chunks text max_length :
  within max_length (split nl text) →
  ∃ chunks trailing,
    _split_message text max_length = Some (chunk_text <$> chunks)
    ∧ Forall chunk_ok chunks
    ∧ blank_run trailing
    ∧ split nl text = (chunks ≫= chunk_lines) ++ trailing.
Proof.
  intros Hlines. unfold _split_message.
  destruct (split_loop_state max_length (split nl text) [] [] [] Hlines)
    as (parts & cur & -> & chunks & gap & g & -> & Hchunks & Hgap & ->
        & Hg & Hdone).
  { exists [], [], [].
    split_and!; [done|constructor|constructor|done|by left|done]. }
  simpl in Hdone. destruct Hg as [->|Hg].
  - exists chunks, gap. simpl. by rewrite app_nil_r in Hdone.
  - pose proof (starts_nonblank_join g Hg) as Hcur.
    apply truthy_true in Hcur. rewrite Hcur.
    exists (chunks ++ [mk_chunk gap g]), []. repeat split.
    + by rewrite fmap_app.
    + apply Forall_app. split; [done|]. by apply Forall_singleton.
    + constructor.
    + rewrite Hdone, bind_app. simpl. unfold chunk_lines. simpl.
      by rewrite !app_nil_r.
Qed.

Lemma blank_run_none (ls : list (list N)) :
  blank_run ls → Forall (λ l, l ≠ []) ls → ls = [].
Proof.
  intros Hblank Hnone. destruct ls as [|l ls]; [done|].
  apply Forall_cons in Hblank as [-> _].
  by apply Forall_cons in Hnone as [? _].
Qed.

Lemma chunks_without_blank (chunks : list chunk) :
  Forall chunk_ok chunks →
  Forall (λ l, l ≠ []) (chunks ≫= chunk_lines) →
  chunks ≫= chunk_lines = concat (held <$> chunks).
Proof.
  induction 1 as [|c chunks [Hskip _] _ IH]; [done|].
  rewrite bind_cons. unfold chunk_lines at 1 3.
  intros Hnone. apply Forall_app in Hnone as [Hc Hrest].
  apply Forall_app in Hc as [Hc _].
  rewrite (blank_run_none _ Hskip Hc). simpl. by rewrite IH.
Qed.

(** A text without blank lines and without long lines is the join of
    its parts. *)
Lemma split_message_roundtrip text max_length parts :
  within max_length (split nl text) →
  Forall (λ l, l ≠ []) (split nl text) →
  _split_message text max_length = Some parts →
  join [nl] parts = text.
Proof.
  intros Hlines Hnone Hparts.
  destruct (split_message_chunks text max_length Hlines)
    as (chunks & trailing & Hrun & Hchunks & Htrail & Hsplit).
  rewrite Hrun in Hparts. injection Hparts as <-.
  rewrite Hsplit in Hnone. apply Forall_app in Hnone as [Hnone Hnone'].
  rewrite (blank_run_none _ Htrail Hnone'), app_nil_r in Hsplit.
  rewrite (chunks_without_blank _ Hchunks Hnone) in Hsplit.
  rewrite <-(join_split nl text), Hsplit, <-join_concat.
  - unfold chunk_text. by rewrite <-list_fmap_compose.
  - apply Forall_fmap. eapply Forall_impl; [exact Hchunks|].
    intros c [_ Hheld]. by apply starts_nonblank_not_nil.
Qed.

(** The text is the join of its parts when no blank line was skipped. *)
Lemma join_chunks text (chunks : list chunk) :
  Forall chunk_ok chunks →
  Forall (λ c, skipped c = []) chunks →
  split nl text = chunks ≫= chunk_lines →
  join [nl] (chunk_text <$> chunks) = text.
Proof.
  intros Hchunks Hnone Hsplit.
  assert (chunks ≫= chunk_lines = concat (held <$> chunks)) as Hheld.
  { clear Hsplit Hchunks. induction Hnone as [|c chunks Hc _ IH]; [done|].
    rewrite bind_cons, IH. unfold chunk_lines. by rewrite Hc. }
  rewrite <-(join_split nl text), Hsplit, Hheld, <-join_concat.
  - unfold chunk_text. by rewrite <-list_fmap_compose.
  - apply Forall_fmap. eapply Forall_impl; [exact Hchunks|].
    intros c [_ Hc]. by apply starts_nonblank_not_nil.
Qed.

(** C5 (amended).  Every part that [_split_message(text, 4000)] yields
    has at most 4000 characters.  When no line of the text exceeds 4000
    characters, every part is a run of consecutive lines joined by
    newlines that starts with a non-blank line, and the lines of the
    text are those of the parts, in order, together with blank lines
    that were skipped in front of a part or after the last part; when
    no blank line was skipped, and so for every text without blank
    lines, joining the parts with newlines reproduces the text
    exactly. *)
Theorem split_message_parts_and_lines text :
  ∃ parts,
    _split_message text 4000 = Some parts
    ∧ within 4000 parts
    ∧ (within 4000 (split nl text) →
         (∃ chunks trailing,
            parts = chunk_text <$> chunks
            ∧ Forall chunk_ok chunks
            ∧ blank_run trailing
            ∧ split nl text = (chunks ≫= chunk_lines) ++ trailing
            ∧ (Forall (λ c, skipped c = []) chunks → trailing = [] →
                 join [nl] parts = text))
         ∧ (Forall (λ l, l ≠ []) (split nl text) → join [nl] parts = text)).
Proof.
  destruct (split_message_bound text 4000) as (parts & Hrun & Hparts); [lia|].
  exists parts. split; [done|]. split; [done|].
  intros Hlines. split.
  - destruct (split_message_chunks text 4000 Hlines)
      as (chunks & trailing & Hrun' & Hchunks & Htrail & Hsplit).
    exists chunks, trailing.
    assert (parts = chunk_text <$> chunks) as -> by congruence.
    split_and!; try done.
    intros Hnone ->. rewrite app_nil_r in Hsplit. by apply join_chunks.
  - intros Hnone. by apply (split_message_roundtrip text 4000).
Qed.

(** A 9000-character report without blank lines: three parts within the
    budget whose join is the report. *)
Lemma split_message_report_9000 :
  length report_9000 = 9 * 1000
  ∧ within 4000 (split nl report_9000)
  ∧ Forall (λ l, l ≠ []) (split nl report_9000)
  ∧ ∃ parts,
      _split_message report_9000 4000 = Some parts
      ∧ length parts = 3
      ∧ within 4000 parts
      ∧ join [nl] parts = report_9000.
Proof.
  assert (within 4000 (split nl report_9000)) as Hlines.
  { apply (bool_decide_unpack _). by vm_compute. }
  assert (Forall (λ l, l ≠ []) (split nl report_9000)) as Hnone.
  { apply (bool_decide_unpack _). by vm_compute. }
  split; [by vm_compute|]. split; [done|]. split; [done|].
  destruct (split_message_parts_and_lines report_9000)
    as (parts & Hrun & Hparts & Hrest).
  exists parts. split; [done|]. split.
  - vm_compute in Hrun. injection Hrun as <-. done.
  - split; [done|]. by apply Hrest.
Defined.

(** The exact round trip fails on a text that starts with a blank line:
    no line is long, yet the only part is ["abc"] and the leading
    newline is gone. *)
Lemma split_message_drops_blank_line :
  within 4000 (split nl blank_first)
  ∧ _split_message blank_first 4000 = Some [lit "abc"]
  ∧ join [nl] [lit "abc"] ≠ blank_first.
Proof.
  split; [|split].
  - apply (bool_decide_unpack _). by vm_compute.
  - by vm_compute.
  - by vm_compute.
Qed.

End Chunks.

(** ** Tables as lists of rows *)

Section Rows.
Context {A : Type}.
Implicit Types (l : list A) (u : A → A).

(** An UPDATE that leaves the columns of a WHERE clause alone commutes
    with the SELECT. *)
Lemma filter_fmap_stable (Q : A → Prop) `{!∀ x, Decision (Q x)} u l :
  (∀ y, Q (u y) ↔ Q y) → filter Q (u <$> l) = u <$> filter Q l.
Proof.
  intros Hu. induction l as [|x l IH]; [done|].
  rewrite fmap_cons, !filter_cons.
  pose proof (Hu x) as Hx.
  destruct (decide (Q (u x))) as [Hq|Hq], (decide (Q x)) as [Hq'|Hq'];
    rewrite ?fmap_cons, IH; done || tauto.
Qed.

Lemma head_filter_fmap_stable (Q : A → Prop) `{!∀ x, Decision (Q x)} u l :
  (∀ y, Q (u y) ↔ Q y) → head (filter Q (u <$> l)) = u <$> head (filter Q l).
Proof.
  intros Hu. rewrite filter_fmap_stable by done. by destruct (filter Q l).
Qed.

Lemma fmap_update_column {K : Type} (key : A → K) u l :
  (∀ y, key (u y) = key y) → key <$> (u <$> l) = key <$> l.
Proof.
  intros Hu. rewrite <-list_fmap_compose. apply list_fmap_ext.
  intros _ y _. apply Hu.
Qed.

Lemma head_filter_Some (Q : A → Prop) `{!∀ x, Decision (Q x)} l x :
  head (filter Q l) = Some x → x ∈ l ∧ Q x.
Proof.
  intros Hhead. apply head_Some_elem_of in Hhead.
  by apply list_elem_of_filter in Hhead as [? ?].
Qed.

Lemma head_filter_Exists (Q : A → Prop) `{!∀ x, Decision (Q x)} l x :
  head (filter Q l) = Some x → Exists Q l.
Proof.
  intros Hhead. apply head_filter_Some in Hhead as [? ?].
  apply Exists_exists. eauto.
Qed.

Lemma filter_none (Q : A → Prop) `{!∀ x, Decision (Q x)} l :
  ¬ Exists Q l → filter Q l = [].
Proof.
  intros Hnone. induction l as [|x l IH]; [done|].
  rewrite filter_cons. destruct (decide (Q x)) as [Hq|Hq].
  - destruct Hnone. by left.
  - apply IH. intros Hex. apply Hnone. by right.
Qed.

(** Under a UNIQUE column a SELECT by that column finds one row. *)
Lemma filter_unique {K : Type} `{!EqDecision K} (key : A → K) l x :
  NoDup (key <$> l) → x ∈ l → filter (λ y, key y = key x) l = [x].
Proof.
  induction l as [|y l IH]; intros Hnodup Hin; [by apply elem_of_nil in Hin|].
  rewrite fmap_cons in Hnodup. apply NoDup_cons in Hnodup as [Hy Hnodup].
  rewrite filter_cons. apply elem_of_cons in Hin as [->|Hin].
  - rewrite decide_True by done. f_equal. apply filter_none.
    intros Hex. apply Exists_exists in Hex as (z & Hz & Hkey).
    apply Hy. rewrite <-Hkey. by apply list_elem_of_fmap_2.
  - rewrite decide_False; [by apply IH|].
    intros Hkey. apply Hy. rewrite Hkey. by apply list_elem_of_fmap_2.
Qed.

End Rows.

(** ** The source ledger *)

Section Sources.
Import Py Database.
Local Open Scope Z_scope.

Lemma update_source_identifier title username now identifier (s : source_row) :
  src_identifier
    (if decide (src_identifier s = identifier)
     then update_source title username now s else s)
  = src_identifier s.
Proof. by case_decide. Qed.

Lemma update_source_id title username now identifier (s : source_row) :
  src_id
    (if decide (src_identifier s = identifier)
     then update_source title username now s else s)
  = src_id s.
Proof. by case_decide. Qed.

(** On a stored identifier the upsert takes its DO UPDATE branch. *)
Lemma add_source_stored db identifier source_type title username now r :
  get_source_by_identifier db identifier = Some r →
  add_source db identifier source_type title username now
  = (Some (src_id r),
     mk_db ((λ s, if decide (src_identifier s = identifier)
                  then update_source title username now s else s)
              <$> sources db)
           (messages db) (reports db)
           (seq_sources db) (seq_messages db) (seq_reports db)
           (last_insert_rowid db))
  ∧ get_source_by_identifier
      (add_source db identifier source_type title username now).2 identifier
    = Some (update_source title username now r).
Proof.
  intros Hr. unfold add_source, upsert_source.
  pose proof (head_filter_Exists _ _ _ Hr) as Hex.
  pose proof (head_filter_Some _ _ _ Hr) as [_ Hid].
  rewrite decide_True by done.
  unfold get_source_by_identifier in *. cbn [sources snd].
  rewrite head_filter_fmap_stable, Hr.
  - cbn. by rewrite decide_True.
  - intros y. by rewrite update_source_identifier.
Qed.

(** On a new identifier it inserts a row with the next rowid. *)
Lemma add_source_new db identifier source_type title username now :
  get_source_by_identifier db identifier = None →
  add_source db identifier source_type title username now
  = (Some (seq_sources db + 1),
     mk_db (sources db ++
              [mk_source (seq_sources db + 1) identifier source_type
                         title username (Some now)])
           (messages db) (reports db)
           (seq_sources db + 1) (seq_messages db) (seq_reports db)
           (seq_sources db + 1)).
Proof.
  intros Hr. unfold add_source, upsert_source.
  unfold get_source_by_identifier in *.
  assert (¬ Exists (λ s, src_identifier s = identifier) (sources db)) as Hno.
  { intros Hex. apply Exists_exists in Hex as (s & Hs & Hid).
    assert (s ∈ filter (λ s, src_identifier s = identifier) (sources db))
      as Hin by by apply list_elem_of_filter.
    destruct (filter _ (sources db)); [by apply elem_of_nil in Hin|done]. }
  rewrite decide_False by done. cbn [sources].
  rewrite filter_app, (filter_none _ _ Hno). cbn.
  by rewrite decide_True.
Qed.

(** Every call returns the key of the row that is stored under the
    identifier afterwards. *)
Lemma add_source_returns_key db identifier source_type title username now :
  ∃ r, get_source_by_identifier
         (add_source db identifier source_type title username now).2
         identifier = Some r
       ∧ (add_source db identifier source_type title username now).1
         = Some (src_id r).
Proof.
  destruct (get_source_by_identifier db identifier) as [r|] eqn:Hr.
  - destruct (add_source_stored db identifier source_type title username
                now r Hr) as [Hrun Hget].
    eexists. split; [exact Hget|]. by rewrite Hrun.
  - rewrite (add_source_new db identifier source_type title username now Hr).
    unfold get_source_by_identifier in *. cbn.
    rewrite filter_app. destruct (filter _ (sources db)); [|done].
    cbn. rewrite decide_True by done. by eexists.
Qed.

(** C8 (amended).  When a row is stored for the identifier, a further
    [add_source] call returns the key of that row and keeps its kind; a
    [title] or [username] argument that is missing ([None]) leaves the
    stored value as it is, and every supplied value, the empty string
    included, replaces the stored one. *)
Theorem add_source_keeps_missing_metadata
    db identifier source_type title username now r :
  get_source_by_identifier db identifier = Some r →
  ∃ r',
    (add_source db identifier source_type title username now).1
    = Some (src_id r)
    ∧ get_source_by_identifier
        (add_source db identifier source_type title username now).2
        identifier = Some r'
    ∧ src_id r' = src_id r
    ∧ src_type r' = src_type r
    ∧ src_title r'
      = match title with Some t => Some t | None => src_title r end
    ∧ src_username r'
      = match username with Some u => Some u | None => src_username r end.
Proof.
  intros Hr.
  destruct (add_source_stored db identifier source_type title username
              now r Hr) as [Hrun Hget].
  exists (update_source title username now r).
  split_and!; [by rewrite Hrun|exact Hget|done|done| |].
  - by destruct title.
  - by destruct username.
Qed.

End Sources.

(** ** The report store *)

Section Reports.
Import Py Database Scenario.
Local Open Scope Z_scope.

Lemma set_content_date date content (r : report_row) :
  rep_date (if decide (rep_date r = date) then set_content content r else r)
  = rep_date r.
Proof. by case_decide. Qed.

Lemma set_content_id date content (r : report_row) :
  rep_id (if decide (rep_date r = date) then set_content content r else r)
  = rep_id r.
Proof. by case_decide. Qed.

(** On a stored date the upsert takes its DO UPDATE branch: the tables
    keep their rows, the sequence and the connection's last inserted
    rowid stay as they were, and the latter is what is returned. *)
Lemma save_report_stored db date content r :
  get_report_by_date db date = Some r →
  save_report db date content
  = (last_insert_rowid db,
     mk_db (sources db) (messages db)
           ((λ r, if decide (rep_date r = date)
                  then set_content content r else r) <$> reports db)
           (seq_sources db) (seq_messages db) (seq_reports db)
           (last_insert_rowid db)).
Proof.
  intros Hr. unfold save_report, upsert_report.
  pose proof (head_filter_Exists _ _ _ Hr) as Hex.
  by rewrite decide_True.
Qed.

(** C4.  Report upsert overwrites content and preserves delivery state:
    when a report row exists for the date, [save_report(date, content)]
    leaves exactly one row for that date, the one [get_report_by_date]
    returns; it is the old row with the new content, so its [sent_at]
    (and its id) are unchanged; the reports of other dates are
    untouched. *)
Theorem save_report_overwrites_content db date content r :
  schema_ok db →
  get_report_by_date db date = Some r →
  ∃ r',
    get_report_by_date (save_report db date content).2 date = Some r'
    ∧ filter (λ x, rep_date x = date) (reports (save_report db date content).2)
      = [r']
    ∧ rep_content r' = content
    ∧ rep_sent_at r' = rep_sent_at r
    ∧ rep_id r' = rep_id r
    ∧ length (reports (save_report db date content).2) = length (reports db)
    ∧ (∀ other, other ≠ date →
         get_report_by_date (save_report db date content).2 other
         = get_report_by_date db other).
Proof.
  intros (_ & _ & _ & Hdates & _) Hr.
  rewrite (save_report_stored db date content r Hr). cbn [snd].
  pose proof (head_filter_Some _ _ _ Hr) as [Hin Hdate].
  assert (filter (λ x, rep_date x = date) (reports db) = [r]) as Hone.
  { rewrite <-Hdate. by apply filter_unique. }
  unfold get_report_by_date. cbn [reports].
  rewrite filter_fmap_stable, Hone
    by (intros y; by rewrite set_content_date).
  exists (set_content content r). cbn [fmap list_fmap head].
  rewrite decide_True by done.
  split_and!; try done.
  - by rewrite length_fmap.
  - intros other Hother. rewrite filter_fmap_stable
      by (intros y; by rewrite set_content_date).
    destruct (filter (λ r0, rep_date r0 = other) (reports db))
      as [|x xs] eqn:Hf; [done|].
    assert (x ∈ filter (λ r0, rep_date r0 = other) (reports db)) as Hx
      by (rewrite Hf; left).
    apply list_elem_of_filter in Hx as [Hx _].
    cbn. rewrite decide_False; [done|congruence].
Qed.

(** [mark_report_sent] touches only the row whose id is its argument. *)
Lemma mark_report_sent_other db report_id now date r :
  get_report_by_date db date = Some r →
  rep_id r ≠ report_id →
  get_report_by_date (mark_report_sent db report_id now) date = Some r.
Proof.
  intros Hr Hid. unfold get_report_by_date, mark_report_sent in *.
  cbn [reports]. rewrite head_filter_fmap_stable, Hr.
  - cbn. by rewrite decide_False.
  - intros y. by case_decide.
Qed.

(** C10.  The id that [save_report] returns on the update path need not
    be the id of the updated row.  A later run of the program reopens a
    database that holds the report of the day under id 1; no INSERT has
    succeeded on the new connection, so [save_report] returns 0, and
    [mark_report_sent] with that id leaves the report unsent. *)
Theorem save_report_returns_stale_id :
  (∀ db report_id now date r,
     get_report_by_date db date = Some r →
     rep_id r ≠ report_id →
     get_report_by_date (mark_report_sent db report_id now) date = Some r)
  ∧ ∃ db date content r,
    reachable db
    ∧ get_report_by_date db date = Some r
    ∧ rep_sent_at r = None
    ∧ (save_report db date content).1 ≠ rep_id r
    ∧ ∀ now,
        rep_sent_at
          <$> get_report_by_date
                (mark_report_sent (save_report db date content).2
                                  (save_report db date content).1 now)
                date
        = Some (rep_sent_at r).
Proof.
  split; [apply mark_report_sent_other|].
  exists rerun, report_day, (lit "second"),
         (mk_report 1 report_day (lit "first") None).
  split_and!.
  - apply reach_connect, (reach_save_report (connect empty)),
      reach_connect, reach_empty.
  - by vm_compute.
  - done.
  - by vm_compute.
  - intros now. by vm_compute.
Qed.

End Reports.

(** ** What the schema keeps true *)

Section Invariants.
Import Py Database.
Local Open Scope Z_scope.

Context {A K : Type} (id : A → Z) (key : A → K).

Lemma table_ok_append seq rows x :
  table_ok id key seq rows →
  key x ∉ key <$> rows →
  id x = seq + 1 →
  table_ok id key (seq + 1) (rows ++ [x]).
Proof.
  intros (Hids & Hkeys & Hseq & Hbound) Hfresh Hid.
  unfold table_ok. rewrite !fmap_app. cbn [fmap list_fmap].
  split_and!.
  - apply NoDup_app. split_and!; [done| |apply NoDup_singleton].
    intros i Hi Hi'. apply list_elem_of_singleton in Hi'. subst i.
    apply list_elem_of_fmap in Hi as (y & Hy & Hin).
    rewrite Forall_forall in Hbound. specialize (Hbound y Hin). lia.
  - apply NoDup_app. split_and!; [done| |apply NoDup_singleton].
    intros k Hk Hk'. apply list_elem_of_singleton in Hk'. by subst k.
  - lia.
  - apply Forall_app. split.
    + eapply Forall_impl; [exact Hbound|]. intros y Hy. simpl in Hy. lia.
    + apply Forall_singleton. lia.
Qed.

Lemma table_ok_update seq rows (u : A → A) :
  (∀ y, id (u y) = id y) → (∀ y, key (u y) = key y) →
  table_ok id key seq rows → table_ok id key seq (u <$> rows).
Proof.
  intros Hid Hkey (Hids & Hkeys & Hseq & Hbound).
  unfold table_ok. rewrite !fmap_update_column by done.
  split_and!; try done.
  apply Forall_fmap. eapply Forall_impl; [exact Hbound|].
  intros y Hy. simpl. by rewrite Hid.
Qed.

End Invariants.

Section Preservation.
Import Py Exc Database.
Local Open Scope Z_scope.

Lemma connect_ok db : db_ok db → db_ok (connect db).
Proof. done. Qed.

Lemma empty_ok : db_ok empty.
Proof.
  unfold db_ok, schema_ok, fk_ok, table_ok. cbn.
  split_and!; by (constructor || lia).
Qed.

Lemma get_source_None db identifier :
  get_source_by_identifier db identifier = None →
  identifier ∉ src_identifier <$> sources db.
Proof.
  unfold get_source_by_identifier. intros Hnone Hin.
  apply list_elem_of_fmap in Hin as (s & Hs & Hin).
  assert (s ∈ filter (λ s, src_identifier s = identifier) (sources db))
    as Hf by by apply list_elem_of_filter.
  destruct (filter _ (sources db)); [by apply elem_of_nil in Hf|done].
Qed.

Lemma add_source_ok db identifier source_type title username now :
  db_ok db →
  db_ok (add_source db identifier source_type title username now).2.
Proof.
  intros [(Hsrc & Hmsg & Hrep) Hfk].
  destruct (get_source_by_identifier db identifier) as [r|] eqn:Hr.
  - destruct (add_source_stored db identifier source_type title username
                now r Hr) as [-> _]. cbn [snd].
    split; [split_and!; try done|].
    + apply table_ok_update; [| |done]; intros y; by case_decide.
    + unfold fk_ok in *. cbn [sources messages].
      rewrite fmap_update_column; [done|]. intros y. by case_decide.
  - rewrite (add_source_new db identifier source_type title username now Hr).
    cbn [snd]. split; [split_and!; try done|].
    + apply table_ok_append; [done| |done].
      by apply get_source_None.
    + unfold fk_ok in *. cbn [sources messages].
      eapply Forall_impl; [exact Hfk|]. intros m Hm. simpl in *.
      rewrite fmap_app. apply elem_of_app. by left.
Qed.

(** The INSERT of [add_message] on a pair that is not stored. *)
Lemma add_message_new db source_id message_id date text link sender_id
    sender_name :
  (source_id, message_id) ∉ msg_key <$> messages db →
  add_message db source_id message_id date text link sender_id sender_name
  = (true,
     mk_db (sources db)
           (messages db ++
              [mk_message (seq_messages db + 1) source_id message_id date
                          text link sender_id sender_name])
           (reports db)
           (seq_sources db) (seq_messages db + 1) (seq_reports db)
           (seq_messages db + 1)).
Proof.
  intros Hfresh. unfold add_message, insert_message.
  rewrite decide_False; [done|].
  intros Hex. apply Exists_exists in Hex as (m & Hm & Hkey).
  apply Hfresh. rewrite <-Hkey. by apply list_elem_of_fmap_2.
Qed.

(** The INSERT on a stored pair fails and nothing changes. *)
Lemma add_message_stored db source_id message_id date text link sender_id
    sender_name :
  (source_id, message_id) ∈ msg_key <$> messages db →
  add_message db source_id message_id date text link sender_id sender_name
  = (false, db).
Proof.
  intros Hin. unfold add_message, insert_message.
  rewrite decide_True; [done|].
  apply list_elem_of_fmap in Hin as (m & Hm & Hin).
  apply Exists_exists. eauto.
Qed.

Lemma add_message_ok db source_id message_id date text link sender_id
    sender_name :
  db_ok db →
  source_id ∈ src_id <$> sources db →
  db_ok (add_message db source_id message_id date text link sender_id
                     sender_name).2.
Proof.
  intros [(Hsrc & Hmsg & Hrep) Hfk] Hsource.
  destruct (decide ((source_id, message_id) ∈ msg_key <$> messages db))
    as [Hin|Hfresh].
  - by rewrite add_message_stored.
  - rewrite add_message_new by done. cbn [snd].
    split; [split_and!; try done|].
    + by apply table_ok_append.
    + unfold fk_ok in *. cbn [sources messages].
      apply Forall_app. split; [done|]. by apply Forall_singleton.
Qed.

Lemma save_report_ok db date content :
  db_ok db → db_ok (save_report db date content).2.
Proof.
  intros [(Hsrc & Hmsg & Hrep) Hfk].
  unfold save_report, upsert_report. cbn [snd].
  case_decide as Hex; (split; [split_and!; try done|done]).
  - apply table_ok_update; [| |done]; intros y; by case_decide.
  - apply table_ok_append; [done| |done].
    intros Hin. apply Hex.
    apply list_elem_of_fmap in Hin as (r & Hr & Hin).
    apply Exists_exists. eauto.
Qed.

Lemma mark_report_sent_ok db report_id now :
  db_ok db → db_ok (mark_report_sent db report_id now).
Proof.
  intros [(Hsrc & Hmsg & Hrep) Hfk].
  split; [split_and!; try done|done].
  apply table_ok_update; [| |done]; intros y; by case_decide.
Qed.

(** X3.  Every state the API leads to satisfies the constraints of the
    schema and the referential integrity of [messages.source_id]. *)
Lemma reachable_ok db : reachable db → db_ok db.
Proof.
  induction 1.
  - apply empty_ok.
  - by apply connect_ok.
  - by apply add_source_ok.
  - by apply add_message_ok.
  - by apply save_report_ok.
  - by apply mark_report_sent_ok.
Qed.

End Preservation.

(** ** Window queries *)

Section Queries.
Import Py Exc Datetime Database Scenario.
Local Open Scope Z_scope.

Lemma insert_by_date_perm r l : insert_by_date r l ≡ₚ r :: l.
Proof.
  induction l as [|x l IH]; [done|]. simpl.
  case_decide; [done|]. rewrite IH. apply Permutation_swap.
Qed.

Lemma order_by_date_perm l : order_by_date l ≡ₚ l.
Proof.
  induction l as [|x l IH]; [done|]. simpl.
  by rewrite insert_by_date_perm, IH.
Qed.

Lemma insert_by_date_sorted r l :
  StronglySorted by_date l → StronglySorted by_date (insert_by_date r l).
Proof.
  induction 1 as [|x l Hsorted IH Hx]; simpl.
  - repeat constructor.
  - case_decide as Hle.
    + constructor; [by constructor|]. constructor; [done|].
      eapply Forall_impl; [exact Hx|]. unfold by_date. intros y Hy. lia.
    + constructor; [done|].
      rewrite insert_by_date_perm. constructor; [|done].
      unfold by_date. lia.
Qed.

Lemma order_by_date_sorted l : StronglySorted by_date (order_by_date l).
Proof.
  induction l as [|x l IH]; simpl; [constructor|].
  by apply insert_by_date_sorted.
Qed.

Lemma join_sources_msg db m r : r ∈ join_sources db m → mv_msg r = m.
Proof.
  unfold join_sources. intros Hr.
  by apply list_elem_of_fmap in Hr as (s & -> & _).
Qed.

(** With unique source ids a message of a stored source joins exactly
    one source row. *)
Lemma join_sources_one db m :
  NoDup (src_id <$> sources db) →
  msg_source_id m ∈ src_id <$> sources db →
  ∃ s, s ∈ sources db
       ∧ src_id s = msg_source_id m
       ∧ join_sources db m
         = [mk_view m (src_identifier s) (src_type s) (src_title s)
                    (src_username s)].
Proof.
  intros Hids Hin. apply list_elem_of_fmap in Hin as (s & Hs & Hin).
  exists s. split; [done|]. split; [done|].
  unfold join_sources. rewrite Hs.
  by rewrite (filter_unique src_id _ s Hids Hin).
Qed.

Lemma join_all_msgs db (l : list message_row) :
  NoDup (src_id <$> sources db) →
  Forall (λ m, msg_source_id m ∈ src_id <$> sources db) l →
  mv_msg <$> (l ≫= join_sources db) = l.
Proof.
  intros Hids. induction 1 as [|m l Hm Hl IH]; [done|].
  rewrite bind_cons, fmap_app, IH.
  destruct (join_sources_one db m Hids Hm) as (s & _ & _ & ->). done.
Qed.

Lemma in_range_window start_date end_date m :
  in_range start_date end_date None m
  ↔ start_date ≤ msg_date m < end_date.
Proof. unfold in_range. simpl. tauto. Qed.

(** The rows of a window query are the stored messages of the window,
    each once. *)
Lemma window_query_perm db start_date end_date source_id :
  db_ok db →
  mv_msg <$> get_messages_by_date_range db start_date end_date source_id
  ≡ₚ filter (in_range start_date end_date source_id) (messages db).
Proof.
  intros [((Hids & _) & _) Hfk]. unfold get_messages_by_date_range.
  rewrite order_by_date_perm, join_all_msgs; [done|done|].
  unfold fk_ok in Hfk. rewrite Forall_forall in Hfk. apply Forall_forall.
  intros m Hm. apply list_elem_of_filter in Hm as [_ Hm]. by apply Hfk.
Qed.

Lemma yesterday_of_day n now :
  midnight (n + 1) ≤ now < midnight (n + 2) →
  Collector.yesterday now = (midnight n, midnight (n + 1)).
Proof.
  unfold Collector.yesterday, replace_midnight, timedelta_days, midnight.
  change day with 86400000000. intros Hnow.
  assert (now mod 86400000000 = now - (n + 1) * 86400000000) as Hmod.
  { symmetry. apply (Z.mod_unique_pos _ _ (n + 1)); lia. }
  rewrite Hmod. f_equal; lia.
Qed.

(** C2.  Window queries are half-open and ordered: on a database that
    satisfies the schema and the referential integrity of the collector,
    [get_messages_by_date_range(start, end)] returns, each once, exactly
    the stored messages whose timestamp t satisfies start <= t < end, in
    ascending timestamp order; and the "yesterday" query issued on day
    N+1 has the window [midnight N, midnight N+1), so it returns the
    messages of 00:00:00 and 12:00:00 of day N and neither the one of
    23:59:59 of day N-1 nor the one of 00:00:00 of day N+1. *)
Theorem window_query_half_open_ordered db :
  db_ok db →
  (∀ start_date end_date,
     mv_msg <$> get_messages_by_date_range db start_date end_date None
     ≡ₚ filter (λ m, start_date ≤ msg_date m < end_date) (messages db)
     ∧ (∀ m, m ∈ mv_msg
                   <$> get_messages_by_date_range db start_date end_date None
             ↔ m ∈ messages db ∧ start_date ≤ msg_date m < end_date)
     ∧ StronglySorted (λ a b, mv_date a ≤ mv_date b)
         (get_messages_by_date_range db start_date end_date None))
  ∧ (∀ n now m,
       midnight (n + 1) ≤ now < midnight (n + 2) →
       m ∈ messages db →
       Collector.yesterday now = (midnight n, midnight (n + 1))
       ∧ (msg_date m = midnight n ∨ msg_date m = midnight n + 12 * hour →
            m ∈ mv_msg <$> get_messages_by_date_range db
                             (Collector.yesterday now).1
                             (Collector.yesterday now).2 None)
       ∧ (msg_date m = midnight n - second ∨ msg_date m = midnight (n + 1) →
            m ∉ mv_msg <$> get_messages_by_date_range db
                             (Collector.yesterday now).1
                             (Collector.yesterday now).2 None)).
Proof.
  intros Hok.
  assert (∀ start_date end_date m,
            m ∈ mv_msg
                  <$> get_messages_by_date_range db start_date end_date None
            ↔ m ∈ messages db ∧ start_date ≤ msg_date m < end_date)
    as Hmem.
  { intros start_date end_date m.
    rewrite (window_query_perm db start_date end_date None Hok).
    rewrite list_elem_of_filter, in_range_window. tauto. }
  split.
  - intros start_date end_date. split_and!; [|apply Hmem|].
    + rewrite (window_query_perm db start_date end_date None Hok).
      apply reflexive_eq, list_filter_iff. intros m. apply in_range_window.
    + apply order_by_date_sorted.
  - intros n now m Hnow Hm.
    rewrite (yesterday_of_day n now Hnow). cbn [fst snd].
    split; [done|]. rewrite Hmem.
    unfold midnight. change day with 86400000000.
    change hour with 3600000000. change second with 1000000. split.
    + intros Hdate. split; [done|]. lia.
    + intros Hdate [_ Hwin]. lia.
Qed.

End Queries.

(** ** Idempotent ingestion *)

Section Ingestion.
Import Py Exc Datetime Database Scenario.
Local Open Scope Z_scope.

Lemma filter_join_sources db (Q : message_row → Prop)
    `{!∀ m, Decision (Q m)} (l : list message_row) :
  filter (λ r, Q (mv_msg r)) (l ≫= join_sources db)
  = filter Q l ≫= join_sources db.
Proof.
  induction l as [|m l IH]; [done|].
  rewrite bind_cons, filter_app, IH, filter_cons.
  assert (∀ rows, Forall (λ r, mv_msg r = m) rows →
            filter (λ r, Q (mv_msg r)) rows
            = if decide (Q m) then rows else []) as Hrows.
  { induction 1 as [|r rows Hr _ IHrows]; [by case_decide|].
    rewrite filter_cons, IHrows, Hr. by case_decide. }
  rewrite Hrows.
  - case_decide; [by rewrite bind_cons|done].
  - apply Forall_forall. intros r. apply join_sources_msg.
Qed.

(** The window query restricted to one (source, message id) pair. *)
Lemma window_query_pair db start_date end_date source_id k :
  filter (λ r, msg_key (mv_msg r) = k)
         (get_messages_by_date_range db start_date end_date source_id)
  ≡ₚ filter (λ m, msg_key m = k)
            (filter (in_range start_date end_date source_id) (messages db))
       ≫= join_sources db.
Proof.
  unfold get_messages_by_date_range.
  rewrite order_by_date_perm.
  pose proof (filter_join_sources db (λ m, msg_key m = k)) as Hjoin.
  cbn beta in Hjoin. by rewrite Hjoin.
Qed.

(** C1.  Message insertion is idempotent: on a database that satisfies
    the schema, for a pair (source_id, message_id) that is not stored
    yet and whose source_id is the key of a stored source, the first
    [add_message] returns [True], the second one (with any payload)
    returns [False] without raising and changes nothing, and a window
    query that covers the timestamp of the message (with or without the
    source filter) returns exactly one row for the pair, the one stored
    by the first call. *)
Theorem add_message_idempotent db source_id message_id p1 p2 :
  schema_ok db →
  source_id ∈ src_id <$> sources db →
  (source_id, message_id) ∉ msg_key <$> messages db →
  (add_message_with db source_id message_id p1).1 = true
  ∧ add_message_with (add_message_with db source_id message_id p1).2
                     source_id message_id p2
    = (false, (add_message_with db source_id message_id p1).2)
  ∧ ∀ start_date end_date filter_id,
      start_date ≤ p_date p1 < end_date →
      filter_id = None ∨ filter_id = Some source_id →
      ∃ row,
        filter (λ r, msg_key (mv_msg r) = (source_id, message_id))
               (get_messages_by_date_range
                  (add_message_with
                     (add_message_with db source_id message_id p1).2
                     source_id message_id p2).2
                  start_date end_date filter_id)
        = [row]
        ∧ mv_msg row
          = stored_as (seq_messages db + 1) source_id message_id p1.
Proof.
  intros ((Hids & _) & (_ & Hkeys & _) & _) Hsource Hfresh.
  unfold add_message_with.
  rewrite add_message_new by done. cbn [fst snd].
  set (row := mk_message _ _ _ _ _ _ _ _).
  set (db1 := mk_db _ _ _ _ _ _ _).
  assert ((source_id, message_id) ∈ msg_key <$> messages db1) as Hstored.
  { unfold db1. cbn [messages]. rewrite fmap_app. apply elem_of_app.
    right. by apply list_elem_of_singleton. }
  rewrite add_message_stored by done.
  split; [done|]. split; [done|].
  intros start_date end_date filter_id Hwin Hfilter. cbn [snd].
  destruct (join_sources_one db1 row) as (s & _ & _ & Hjoin); [done..|].
  exists (mk_view row (src_identifier s) (src_type s) (src_title s)
                  (src_username s)).
  split; [|done].
  apply Permutation_singleton_r.
  rewrite window_query_pair.
  change (messages db1) with (messages db ++ [row]).
  rewrite !filter_app, bind_app.
  assert (filter (λ m, msg_key m = (source_id, message_id))
            (filter (in_range start_date end_date filter_id) (messages db))
          = []) as ->.
  { apply filter_none. intros Hex.
    apply Exists_exists in Hex as (m & Hm & Hkey).
    apply list_elem_of_filter in Hm as [_ Hm].
    apply Hfresh. rewrite <-Hkey. by apply list_elem_of_fmap_2. }
  assert (in_range start_date end_date filter_id row) as Hrow.
  { unfold in_range. split; [apply Hwin|]. split; [apply Hwin|].
    destruct Hfilter as [->| ->]; [done|]. unfold source_filter.
    by case_decide. }
  rewrite (filter_cons _ row), decide_True by done.
  rewrite filter_nil, (filter_cons _ row), decide_True by done.
  rewrite filter_nil, bind_cons, Hjoin. done.
Qed.

End Ingestion.

(** ** The collector *)

Section Collecting.
Import Py Exc Datetime Collector Scenario.

Implicit Types (tg : Telegram.TelegramService) (db : Database.t).

Lemma store_message_ok source_id msg db :
  ∃ is_new db', store_message source_id msg db = (Ok is_new, db').
Proof.
  unfold store_message, lift_db, ret. destruct source_id as [source_id|].
  - destruct (Database.add_message _ _ _ _ _ _ _ _) as [is_new db'].
    by exists is_new, db'.
  - by exists false, db.
Qed.

Lemma store_messages_ok source_id messages new_messages db :
  ∃ n db', store_messages source_id messages new_messages db = (Ok n, db').
Proof.
  revert new_messages db.
  induction messages as [|msg rest IH]; intros new_messages db.
  - by exists new_messages, db.
  - cbn [store_messages]. unfold bind at 1.
    destruct (store_message_ok source_id msg db) as (is_new & db' & ->).
    apply IH.
Qed.

(** [collect_from_source] catches every exception itself. *)
Lemma collect_from_source_ok tg identifier source_type start_date end_date
    now db :
  ∃ counts db',
    collect_from_source tg identifier source_type start_date end_date now db
    = (Ok counts, db').
Proof.
  unfold collect_from_source, try_except, bind, lift_result, lift_db, ret.
  destruct (Telegram.get_entity_info tg identifier) as [info|e].
  - destruct (Database.add_source _ _ _ _ _ _) as [source_id db1].
    destruct (store_messages_ok source_id
                (Telegram.get_messages tg identifier start_date end_date)
                0 db1) as (n & db2 & ->).
    by eexists _, _.
  - by exists (0, 0), db.
Qed.

(** A source that cannot be resolved counts zero and leaves the
    database alone. *)
Lemma collect_from_source_unresolved tg identifier source_type start_date
    end_date now db e :
  Telegram.get_entity tg identifier = Raise e →
  collect_from_source tg identifier source_type start_date end_date now db
  = (Ok (0, 0), db).
Proof.
  intros He.
  unfold collect_from_source, try_except, bind, lift_result.
  unfold Telegram.get_entity_info. by rewrite He.
Qed.

(** One turn of the loop: the counts of the source are added, and the
    list of failed sources is what it was. *)
Lemma collect_loop_step tg identifier source_type rest start_date end_date
    now total_messages total_new failed db :
  ∃ counts db',
    collect_from_source tg identifier source_type start_date end_date now db
    = (Ok counts, db')
    ∧ collect_loop tg ((identifier, source_type) :: rest) start_date end_date
                   now total_messages total_new failed db
      = collect_loop tg rest start_date end_date now
                     (total_messages + counts.1) (total_new + counts.2)
                     failed db'.
Proof.
  destruct (collect_from_source_ok tg identifier source_type start_date
              end_date now db) as (counts & db' & Hrun).
  exists counts, db'. split; [done|].
  cbn [collect_loop]. unfold bind at 1, try_except, bind at 1.
  by rewrite Hrun.
Qed.

Lemma collect_loop_no_failures tg sources start_date end_date now
    total_messages total_new failed db :
  ∃ total_messages' total_new' db',
    collect_loop tg sources start_date end_date now
                 total_messages total_new failed db
    = (Ok (total_messages', total_new', failed), db').
Proof.
  revert total_messages total_new db.
  induction sources as [|[identifier source_type] rest IH];
    intros total_messages total_new db.
  - by eexists _, _, _.
  - destruct (collect_loop_step tg identifier source_type rest start_date
                end_date now total_messages total_new failed db)
      as (counts & db' & _ & ->).
    apply IH.
Qed.

(** Whatever happens to the sources, the statistics report no failed
    source. *)
Lemma collect_reports_no_failures tg sources start_date end_date now db :
  ∃ st db',
    collect_from_all_sources tg sources start_date end_date now db
    = (Ok st, db')
    ∧ total_sources st = length sources
    ∧ failed_sources st = 0.
Proof.
  unfold collect_from_all_sources, bind, ret.
  destruct (collect_loop_no_failures tg sources start_date end_date now
              0 0 [] db) as (tm & tn & db' & ->).
  by eexists _, _.
Qed.

(** X4.  Per-source isolation: a source that cannot be resolved is
    passed over; the totals and the database are those of the run
    without it. *)
Lemma collect_loop_skips_unresolved tg before identifier source_type after
    start_date end_date now total_messages total_new failed db e :
  Telegram.get_entity tg identifier = Raise e →
  collect_loop tg (before ++ (identifier, source_type) :: after)
               start_date end_date now total_messages total_new failed db
  = collect_loop tg (before ++ after)
                 start_date end_date now total_messages total_new failed db.
Proof.
  intros He. revert total_messages total_new db.
  induction before as [|[identifier' source_type'] before IH];
    intros total_messages total_new db.
  - cbn [app].
    destruct (collect_loop_step tg identifier source_type after start_date
                end_date now total_messages total_new failed db)
      as (counts & db' & Hrun & ->).
    rewrite (collect_from_source_unresolved _ _ _ _ _ _ _ e He) in Hrun.
    injection Hrun as <- <-. cbn [fst snd]. by rewrite !Nat.add_0_r.
  - cbn [app].
    destruct (collect_loop_step tg identifier' source_type'
                (before ++ (identifier, source_type) :: after) start_date
                end_date now total_messages total_new failed db)
      as (counts & db' & Hrun & ->).
    destruct (collect_loop_step tg identifier' source_type'
                (before ++ after) start_date
                end_date now total_messages total_new failed db)
      as (counts' & db'' & Hrun' & ->).
    rewrite Hrun in Hrun'. injection Hrun' as <- <-. apply IH.
Qed.

(** C3.  The run with one unresolvable source: ["@gone"] raises in the
    metadata step, the batch goes on and the post of ["@news"] is
    fetched and stored, but [failed_sources] is 0: the exception is
    caught inside [collect_from_source], so the handler of
    [collect_from_all_sources] that records the identifier never
    runs. *)
Theorem collect_failed_source_not_reported :
  Telegram.get_entity_info flaky (lit "@gone") = Raise CollaboratorError
  ∧ (collect_yesterday flaky configured morning_after Database.empty).1
    = Ok (mk_stats 2 1 1 0).
Proof. split; by vm_compute. Qed.

End Collecting.

(** ** The properties on the scenarios *)

Section Instances.
Import Py Exc Datetime Database Scenario.
Local Open Scope Z_scope.

Ltac by_computation := apply (bool_decide_unpack _); vm_compute; exact I.

(** The idempotence of [add_message] on the ledger [titled]. *)
Lemma add_message_idempotent_witness :
  schema_ok titled
  ∧ 1 ∈ src_id <$> sources titled
  ∧ ¬ ((1, 42) ∈ msg_key <$> messages titled)
  ∧ (add_message_with titled 1 42 greeting).1 = true
  ∧ (add_message_with (add_message_with titled 1 42 greeting).2 1 42
                      greeting_again).1 = false
  ∧ ∃ row,
      filter (λ r, msg_key (mv_msg r) = (1, 42))
             (get_messages_by_date_range
                (add_message_with (add_message_with titled 1 42 greeting).2
                                  1 42 greeting_again).2
                0 2000 None)
      = [row]
      ∧ mv_msg row = stored_as 1 1 42 greeting.
Proof.
  assert (schema_ok titled) as Hok by by_computation.
  assert (1 ∈ src_id <$> sources titled) as Hsource by by_computation.
  assert ((1, 42) ∉ msg_key <$> messages titled) as Hfresh by by_computation.
  destruct (add_message_idempotent titled 1 42 greeting greeting_again
              Hok Hsource Hfresh) as (Hfirst & Hsecond & Hquery).
  split_and!; [done|done|done|done|by rewrite Hsecond|].
  apply (Hquery 0 2000 None); [by vm_compute|by left].
Defined.

(** The "yesterday" query of the morning of day 19724 on [around_day]:
    the rows of 00:00:00 and 12:00:00 of day 19723, in that order. *)
Lemma window_query_witness :
  db_ok around_day
  ∧ Collector.yesterday morning_after = (midnight 19723, midnight 19724)
  ∧ msg_message_id ∘ mv_msg
      <$> get_messages_by_date_range around_day
            (Collector.yesterday morning_after).1
            (Collector.yesterday morning_after).2 None
    = [102; 103]
  ∧ StronglySorted (λ a b, mv_date a ≤ mv_date b)
      (get_messages_by_date_range around_day
         (midnight 19723) (midnight 19724) None).
Proof.
  assert (db_ok around_day) as Hok by by_computation.
  destruct (window_query_half_open_ordered around_day Hok) as [Hwin _].
  split_and!; [done|by vm_compute|by vm_compute|].
  apply (Hwin (midnight 19723) (midnight 19724)).
Defined.

(** Saving the report of [report_day] again. *)
Lemma save_report_witness :
  schema_ok first_run
  ∧ get_report_by_date first_run report_day
    = Some (mk_report 1 report_day (lit "first") None)
  ∧ ∃ r',
      get_report_by_date (save_report first_run report_day (lit "second")).2
                         report_day = Some r'
      ∧ filter (λ x, rep_date x = report_day)
               (reports (save_report first_run report_day (lit "second")).2)
        = [r']
      ∧ rep_content r' = lit "second"
      ∧ rep_sent_at r' = None
      ∧ rep_id r' = 1.
Proof.
  assert (schema_ok first_run) as Hok by by_computation.
  assert (get_report_by_date first_run report_day
          = Some (mk_report 1 report_day (lit "first") None)) as Hr
    by by vm_compute.
  destruct (save_report_overwrites_content first_run report_day
              (lit "second") _ Hok Hr)
    as (r' & Hget & Hone & Hcontent & Hsent & Hid & _).
  split; [done|]. split; [done|]. by exists r'.
Defined.

(** A second [add_source] for ["@news"] without title and handle. *)
Lemma add_source_witness :
  get_source_by_identifier titled (lit "@news")
  = Some (mk_source 1 (lit "@news") (lit "channel") (Some (lit "News"))
                    (Some (lit "news")) (Some 0))
  ∧ ∃ r',
      (add_source titled (lit "@news") (lit "chat") None None 5).1 = Some 1
      ∧ get_source_by_identifier
          (add_source titled (lit "@news") (lit "chat") None None 5).2
          (lit "@news") = Some r'
      ∧ src_type r' = lit "channel"
      ∧ src_title r' = Some (lit "News")
      ∧ src_username r' = Some (lit "news").
Proof.
  assert (get_source_by_identifier titled (lit "@news")
          = Some (mk_source 1 (lit "@news") (lit "channel")
                            (Some (lit "News")) (Some (lit "news")) (Some 0)))
    as Hr by by vm_compute.
  destruct (add_source_keeps_missing_metadata titled (lit "@news")
              (lit "chat") None None 5 _ Hr)
    as (r' & Hkey & Hget & _ & Htype & Htitle & Huser).
  split; [done|]. by exists r'.
Defined.

(** An empty argument is not treated as a missing one: [COALESCE] keeps
    the stored value only when the argument is NULL, so an empty title
    and an empty handle replace the stored ones. *)
Lemma add_source_empty_overwrites :
  get_source_by_identifier titled (lit "@news")
  = Some (mk_source 1 (lit "@news") (lit "channel") (Some (lit "News"))
                    (Some (lit "news")) (Some 0))
  ∧ get_source_by_identifier
      (add_source titled (lit "@news") (lit "channel") (Some []) (Some [])
                  5).2
      (lit "@news")
    = Some (mk_source 1 (lit "@news") (lit "channel") (Some []) (Some [])
                      (Some 5)).
Proof. split; by vm_compute. Qed.

(** The stale id in the general statement of
    [mark_report_sent]. *)
Lemma save_report_stale_id_witness :
  (save_report rerun report_day (lit "second")).1 = 0
  ∧ get_report_by_date
      (mark_report_sent (save_report rerun report_day (lit "second")).2
                        0 77)
      report_day
    = Some (mk_report 1 report_day (lit "second") None).
Proof.
  split; [by vm_compute|].
  destruct save_report_returns_stale_id as [Hother _].
  apply Hother; by vm_compute.
Defined.

End Instances.

Section MoreInstances.
Import Py Exc ReportFormatter Rendering DigestGenerator Scenario.

(** 450 texts are sampled with stride 2. *)
Lemma limit_messages_cap_and_order_witness :
  ∃ sampled,
    limit_messages (seq 0 450) = Ok sampled
    ∧ length sampled ≤ 200
    ∧ sampled `sublist_of` seq 0 450.
Proof.
  destruct (limit_messages_cap_and_order (seq 0 450))
    as (sampled & Hrun & Habove & _).
  exists sampled. split; [done|].
  apply Habove. rewrite length_seq. lia.
Defined.

Lemma limit_messages_exactly_cap_witness :
  200 < length (seq 0 450)
  ∧ ∃ sampled,
      limit_messages (seq 0 450) = Ok sampled ∧ length sampled = 200.
Proof.
  assert (200 < length (seq 0 450)) as Hlen by (rewrite length_seq; lia).
  destruct (limit_messages_exactly_cap (seq 0 450) Hlen)
    as (_ & _ & sampled & Hrun & Hcap & _).
  split; [done|]. by exists sampled.
Defined.

(** A body of 301 characters [<]: 300 of them are kept and escaped. *)
Lemma format_message_witness :
  _format_message long_post
  = concat (replicate 300 (lit "&lt;")) ++ lit "..."
      ++ link_marker (link long_post) ++ [nl; nl].
Proof.
  destruct format_message_truncates_then_escapes
    as (_ & _ & Hlong & _).
  rewrite (Hlong long_post (replicate 301 60%N)); [by vm_compute|done|].
  rewrite length_replicate. lia.
Defined.

End MoreInstances.

(** ** Further properties of the store and the collector *)

Section Further.
Import Py Exc Datetime Database Scenario.
Local Open Scope Z_scope.

(** X1.  On a date without a report [save_report] inserts a row, unsent,
    and returns its id. *)
Lemma save_report_new db date content :
  get_report_by_date db date = None →
  (save_report db date content).1 = seq_reports db + 1
  ∧ get_report_by_date (save_report db date content).2 date
    = Some (mk_report (seq_reports db + 1) date content None).
Proof.
  unfold get_report_by_date, save_report, upsert_report. intros Hnone.
  assert (¬ Exists (λ r, rep_date r = date) (reports db)) as Hno.
  { intros Hex. apply Exists_exists in Hex as (r & Hr & Hdate).
    assert (r ∈ filter (λ r, rep_date r = date) (reports db)) as Hin
      by by apply list_elem_of_filter.
    destruct (filter _ (reports db)); [by apply elem_of_nil in Hin|done]. }
  rewrite decide_False by done. cbn [fst snd reports last_insert_rowid].
  split; [done|].
  rewrite filter_app, (filter_none _ _ Hno). cbn.
  by rewrite decide_True.
Qed.

Lemma save_report_new_witness :
  get_report_by_date (connect empty) report_day = None
  ∧ (save_report (connect empty) report_day (lit "first")).1 = 1.
Proof.
  assert (get_report_by_date (connect empty) report_day = None) as Hnone
    by by vm_compute.
  split; [done|].
  by destruct (save_report_new (connect empty) report_day (lit "first")
                 Hnone) as [-> _].
Defined.

Lemma read_stream_in_window start_date end_date s messages :
  Forall (λ m, start_date ≤ Telegram.date m < end_date) messages →
  ∀ fetched,
    Telegram.read_stream start_date end_date s messages = Ok fetched →
    Forall (λ m, start_date ≤ Telegram.date m < end_date) fetched.
Proof.
  revert messages.
  induction s as [|m rest IH|e]; intros messages Hin fetched; simpl.
  - by intros [= <-].
  - case_decide as Hold; [by intros [= <-]|].
    case_decide as Hnew; [by apply IH|].
    apply IH. apply Forall_app. split; [done|].
    apply Forall_singleton. lia.
  - done.
Qed.

(** X2.  Every message that [get_messages] returns lies in the window
    [start_date, end_date), whatever the client streams. *)
Lemma get_messages_in_window tg identifier start_date end_date :
  Forall (λ m, start_date ≤ Telegram.date m < end_date)
         (Telegram.get_messages tg identifier start_date end_date).
Proof.
  unfold Telegram.get_messages.
  destruct (Telegram.get_entity tg identifier); [|constructor].
  destruct (Telegram.read_stream _ _ _ _) as [fetched|e] eqn:Hrun;
    [|constructor].
  eapply read_stream_in_window; [|exact Hrun]. constructor.
Qed.

(** A later run finds a database that satisfies them. *)
Lemma reachable_ok_witness : reachable rerun ∧ db_ok rerun.
Proof.
  assert (reachable rerun) as Hreach.
  { apply reach_connect, (reach_save_report (connect empty)),
      reach_connect, reach_empty. }
  split; [done|]. by apply reachable_ok.
Defined.

End Further.

Section FurtherCollecting.
Import Py Exc Datetime Collector Scenario.

(** The run over [configured] is the run over ["@news"] alone. *)
Lemma collect_loop_skips_unresolved_witness :
  Telegram.get_entity flaky (lit "@gone") = Raise CollaboratorError
  ∧ collect_loop flaky configured 0 10 5 0 0 [] Database.empty
    = collect_loop flaky [(lit "@news", lit "channel")] 0 10 5 0 0 []
                   Database.empty.
Proof.
  assert (Telegram.get_entity flaky (lit "@gone") = Raise CollaboratorError)
    as Hgone by by vm_compute.
  split; [done|].
  apply (collect_loop_skips_unresolved flaky [] (lit "@gone") (lit "channel")
           [(lit "@news", lit "channel")] 0%Z 10%Z 5%Z 0 0 [] Database.empty
           CollaboratorError Hgone).
Defined.

End FurtherCollecting.

(** ** More on the source ledger and the report store *)

Section LedgerMore.
Import Py Exc Datetime Database.
Local Open Scope Z_scope.

(** X5.  A new identifier gets a row with a key that no stored source
    has, and a lookup by the identifier returns the row as it was
    given. *)
Lemma add_source_new_round_trip db identifier source_type title username now :
  schema_ok db →
  get_source_by_identifier db identifier = None →
  ∃ key,
    (add_source db identifier source_type title username now).1 = Some key
    ∧ ¬ (key ∈ src_id <$> sources db)
    ∧ get_source_by_identifier
        (add_source db identifier source_type title username now).2
        identifier
      = Some (mk_source key identifier source_type title username (Some now)).
Proof.
  intros ((_ & _ & _ & Hbound) & _) Hnone.
  rewrite (add_source_new db identifier source_type title username now Hnone).
  exists (seq_sources db + 1). split; [done|]. split.
  - intros Hin. apply list_elem_of_fmap in Hin as (s & Hs & Hin).
    rewrite Forall_forall in Hbound. specialize (Hbound s Hin). lia.
  - unfold get_source_by_identifier in *. cbn [snd sources].
    rewrite filter_app. destruct (filter _ (sources db)); [|done].
    cbn. by rewrite decide_True.
Qed.

(** Lookups by other identifiers and the other tables do not see an
    [add_source]. *)
Lemma add_source_elsewhere db identifier source_type title username now other :
  other ≠ identifier →
  get_source_by_identifier
    (add_source db identifier source_type title username now).2 other
  = get_source_by_identifier db other
  ∧ messages (add_source db identifier source_type title username now).2
    = messages db
  ∧ reports (add_source db identifier source_type title username now).2
    = reports db.
Proof.
  intros Hother.
  destruct (get_source_by_identifier db identifier) as [r|] eqn:Hr.
  - destruct (add_source_stored db identifier source_type title username
                now r Hr) as [-> _]. cbn [snd].
    split; [|done]. unfold get_source_by_identifier. cbn [sources].
    rewrite filter_fmap_stable
      by (intros y; by rewrite update_source_identifier).
    destruct (filter (λ s, src_identifier s = other) (sources db))
      as [|x xs] eqn:Hf; [done|].
    assert (x ∈ filter (λ s, src_identifier s = other) (sources db)) as Hx
      by (rewrite Hf; left).
    apply list_elem_of_filter in Hx as [Hx _].
    cbn. rewrite decide_False; [done|congruence].
  - rewrite (add_source_new db identifier source_type title username now Hr).
    cbn [snd]. split; [|done].
    unfold get_source_by_identifier. cbn [sources].
    rewrite filter_app, (filter_cons _ (mk_source _ _ _ _ _ _)).
    cbn [src_identifier]. rewrite decide_False by done.
    by rewrite filter_nil, app_nil_r.
Qed.

(** X6.  [add_source] touches the row of its identifier only: a lookup
    by another identifier gives what it gave before, and the messages
    and the reports are as they were. *)
Lemma add_source_frame db identifier source_type title username now other :
  other ≠ identifier →
  get_source_by_identifier
    (add_source db identifier source_type title username now).2 other
  = get_source_by_identifier db other
  ∧ messages (add_source db identifier source_type title username now).2
    = messages db
  ∧ reports (add_source db identifier source_type title username now).2
    = reports db.
Proof. apply add_source_elsewhere. Qed.

Lemma add_source_frame_witness :
  get_source_by_identifier
    (add_source Scenario.titled (lit "@other") (lit "chat") None None 3).2
    (lit "@news")
  = get_source_by_identifier Scenario.titled (lit "@news").
Proof.
  apply (add_source_frame Scenario.titled (lit "@other") (lit "chat")
           None None 3 (lit "@news")).
  by vm_compute.
Defined.

Lemma add_source_new_round_trip_witness :
  schema_ok Scenario.titled
  ∧ get_source_by_identifier Scenario.titled (lit "@other") = None
  ∧ ∃ key,
      (add_source Scenario.titled (lit "@other") (lit "chat") None None 3).1
      = Some key
      ∧ ¬ (key ∈ src_id <$> sources Scenario.titled).
Proof.
  assert (schema_ok Scenario.titled) as Hok
    by (apply (bool_decide_unpack _); vm_compute; exact I).
  assert (get_source_by_identifier Scenario.titled (lit "@other") = None)
    as Hnone by by vm_compute.
  destruct (add_source_new_round_trip Scenario.titled (lit "@other")
              (lit "chat") None None 3 Hok Hnone) as (key & Hkey & Hfresh & _).
  split; [done|]. split; [done|]. by exists key.
Defined.

(** The INSERT branch of [save_report] written out. *)
Lemma save_report_insert db date content :
  get_report_by_date db date = None →
  save_report db date content
  = (seq_reports db + 1,
     mk_db (sources db) (messages db)
           (reports db ++ [mk_report (seq_reports db + 1) date content None])
           (seq_sources db) (seq_messages db) (seq_reports db + 1)
           (seq_reports db + 1)).
Proof.
  unfold get_report_by_date, save_report, upsert_report. intros Hnone.
  rewrite decide_False; [done|].
  intros Hex. apply Exists_exists in Hex as (r & Hr & Hdate).
  assert (r ∈ filter (λ r, rep_date r = date) (reports db)) as Hin
    by by apply list_elem_of_filter.
  destruct (filter _ (reports db)); [by apply elem_of_nil in Hin|done].
Qed.

(** X7.  The first report of a date: [mark_report_sent] with the id
    that [save_report] returned stamps that report and no other. *)
Lemma save_then_mark_new db date content now :
  schema_ok db →
  get_report_by_date db date = None →
  get_report_by_date
    (mark_report_sent (save_report db date content).2
                      (save_report db date content).1 now)
    date
  = Some (mk_report (seq_reports db + 1) date content (Some now))
  ∧ ∀ other r,
      get_report_by_date db other = Some r →
      get_report_by_date
        (mark_report_sent (save_report db date content).2
                          (save_report db date content).1 now)
        other
      = Some r.
Proof.
  intros (_ & _ & (_ & _ & _ & Hbound)) Hnone.
  rewrite (save_report_insert db date content Hnone). cbn [fst snd].
  assert (∀ r, r ∈ reports db → rep_id r ≠ seq_reports db + 1) as Hids.
  { intros r Hr. rewrite Forall_forall in Hbound.
    specialize (Hbound r Hr). lia. }
  assert ((λ r, if decide (rep_id r = seq_reports db + 1)
                then set_sent_at now r else r) <$> reports db
          = reports db) as Hsame.
  { rewrite <-(list_fmap_id (reports db)) at 2.
    apply list_fmap_ext. intros i r Hr. apply list_elem_of_lookup_2 in Hr.
    rewrite decide_False; [done|by apply Hids]. }
  unfold get_report_by_date, mark_report_sent in *. cbn [reports].
  rewrite fmap_app, Hsame. cbn [fmap list_fmap rep_id].
  rewrite decide_True by done. unfold set_sent_at. cbn.
  split.
  - rewrite filter_app. apply head_None in Hnone. rewrite Hnone. cbn.
    by rewrite decide_True.
  - intros other r Hr. rewrite filter_app.
    by destruct (filter (λ r0, rep_date r0 = other) (reports db)).
Qed.

Lemma save_then_mark_new_witness :
  schema_ok (connect empty)
  ∧ get_report_by_date (connect empty) Scenario.report_day = None
  ∧ get_report_by_date
      (mark_report_sent
         (save_report (connect empty) Scenario.report_day (lit "first")).2
         (save_report (connect empty) Scenario.report_day (lit "first")).1 9)
      Scenario.report_day
    = Some (mk_report 1 Scenario.report_day (lit "first") (Some 9)).
Proof.
  assert (schema_ok (connect empty)) as Hok
    by (apply (bool_decide_unpack _); vm_compute; exact I).
  assert (get_report_by_date (connect empty) Scenario.report_day = None)
    as Hnone by by vm_compute.
  split; [done|]. split; [done|].
  by destruct (save_then_mark_new (connect empty) Scenario.report_day
                 (lit "first") 9 Hok Hnone) as [-> _].
Defined.

End LedgerMore.

(** ** Grouping by source *)

Section Grouping.
Import Py Datetime Database DatabaseViews.
Local Open Scope Z_scope.

Implicit Types (rows : list message_view) (msg : message_view).

Lemma lookup_append_group identifier msg (grouped : list (list N * list message_view)) k :
  lookup_group k (append_group identifier msg grouped)
  = if decide (identifier = k)
    then Some (default [] (lookup_group k grouped) ++ [msg])
    else lookup_group k grouped.
Proof.
  induction grouped as [|[k' v] rest IH]; simpl.
  - repeat case_decide; done.
  - destruct (decide (k' = identifier)) as [->|Hk']; simpl.
    + repeat case_decide; done.
    + rewrite IH. repeat case_decide; congruence.
Qed.

Lemma keys_append_group identifier msg (grouped : list (list N * list message_view)) :
  (append_group identifier msg grouped).*1
  = if decide (identifier ∈ grouped.*1) then grouped.*1
    else grouped.*1 ++ [identifier].
Proof.
  induction grouped as [|[k' v] rest IH]; cbn [append_group].
  - destruct (decide (identifier ∈ [].*1)) as [Hin|_]; [|done].
    by apply elem_of_nil in Hin.
  - destruct (decide (k' = identifier)) as [->|Hk']; rewrite !fmap_cons;
      cbn [fst].
    + destruct (decide (identifier ∈ identifier :: rest.*1)) as [_|Hnot];
        [done|]. destruct Hnot. left.
    + rewrite IH.
      destruct (decide (identifier ∈ rest.*1)) as [Hin|Hnot],
               (decide (identifier ∈ k' :: rest.*1)) as [Hin'|Hnot'];
        try done.
      * destruct Hnot'. by right.
      * apply elem_of_cons in Hin' as [?|?]; congruence.
Qed.

Lemma rows_append_group identifier msg (grouped : list (list N * list message_view)) :
  concat (append_group identifier msg grouped).*2
  ≡ₚ msg :: concat grouped.*2.
Proof.
  induction grouped as [|[k' v] rest IH]; simpl; [done|].
  case_decide; simpl.
  - rewrite <-app_assoc. simpl. symmetry. apply Permutation_middle.
  - rewrite IH. symmetry. apply Permutation_middle.
Qed.

Lemma foldl_append_group rows (grouped : list (list N * list message_view)) k :
  lookup_group k
    (foldl (λ g msg, append_group (mv_identifier msg) msg g) grouped rows)
  = match lookup_group k grouped,
          filter (λ r, mv_identifier r = k) rows with
    | Some v, w => Some (v ++ w)
    | None, [] => None
    | None, w => Some w
    end.
Proof.
  revert grouped. induction rows as [|msg rows IH]; intros grouped; simpl.
  - destruct (lookup_group k grouped); by rewrite ?app_nil_r.
  - rewrite IH, lookup_append_group, filter_cons.
    destruct (decide (mv_identifier msg = k)) as [Hk|Hk].
    + destruct (lookup_group k grouped); simpl; by rewrite <-?app_assoc.
    + done.
Qed.

Lemma foldl_append_group_keys rows (grouped : list (list N * list message_view)) :
  NoDup grouped.*1 →
  NoDup (foldl (λ g msg, append_group (mv_identifier msg) msg g)
               grouped rows).*1.
Proof.
  revert grouped. induction rows as [|msg rows IH]; intros grouped Hnd;
    simpl; [done|].
  apply IH. rewrite keys_append_group. case_decide; [done|].
  apply NoDup_app. split_and!; [done| |apply NoDup_singleton].
  intros k Hk Hk'. apply list_elem_of_singleton in Hk'. by subst.
Qed.

Lemma foldl_append_group_rows rows (grouped : list (list N * list message_view)) :
  concat (foldl (λ g msg, append_group (mv_identifier msg) msg g)
                grouped rows).*2
  ≡ₚ concat grouped.*2 ++ rows.
Proof.
  revert grouped. induction rows as [|msg rows IH]; intros grouped; simpl.
  - by rewrite app_nil_r.
  - rewrite IH, rows_append_group. by rewrite <-Permutation_middle.
Qed.

Lemma lookup_group_elem_of (grouped : list (list N * list message_view)) k v :
  NoDup grouped.*1 → (k, v) ∈ grouped → lookup_group k grouped = Some v.
Proof.
  induction grouped as [|[k' v'] rest IH]; intros Hnd Hin;
    [by apply elem_of_nil in Hin|].
  simpl in *. apply NoDup_cons in Hnd as [Hk' Hnd].
  apply elem_of_cons in Hin as [[= -> ->]|Hin].
  - by rewrite decide_True.
  - rewrite decide_False; [by apply IH|].
    intros ->. apply Hk'. apply list_elem_of_fmap. by exists (k, v).
Qed.

Lemma filter_sorted (R : message_view → message_view → Prop)
    (P : message_view → Prop) `{!∀ x, Decision (P x)} rows :
  StronglySorted R rows → StronglySorted R (filter P rows).
Proof.
  induction 1 as [|x l Hl IH Hx]; [constructor|].
  rewrite filter_cons. case_decide; [|done].
  constructor; [done|]. apply Forall_forall. intros y Hy.
  apply list_elem_of_filter in Hy as [_ Hy].
  rewrite Forall_forall in Hx. by apply Hx.
Qed.

(** X8.  [get_messages_grouped_by_source] is the window query split by
    identifier: no key occurs twice, the list under a key is the rows of
    the query with that identifier, in the order of the query and so
    ascending by timestamp, a key is present only when it has a row, and
    the lists together hold every row of the query once. *)
Theorem grouped_by_source_partition db start_date end_date :
  NoDup (get_messages_grouped_by_source db start_date end_date).*1
  ∧ (∀ k,
       lookup_group k (get_messages_grouped_by_source db start_date end_date)
       = match filter (λ r, mv_identifier r = k)
                      (get_messages_by_date_range db start_date end_date
                                                  None) with
         | [] => None
         | v => Some v
         end)
  ∧ (∀ k v,
       (k, v) ∈ get_messages_grouped_by_source db start_date end_date →
       v ≠ []
       ∧ v = filter (λ r, mv_identifier r = k)
                    (get_messages_by_date_range db start_date end_date None)
       ∧ StronglySorted (λ a b, mv_date a ≤ mv_date b) v)
  ∧ concat (get_messages_grouped_by_source db start_date end_date).*2
    ≡ₚ get_messages_by_date_range db start_date end_date None.
Proof.
  unfold get_messages_grouped_by_source, group_rows.
  set (rows := get_messages_by_date_range db start_date end_date None).
  assert (NoDup (foldl (λ g msg, append_group (mv_identifier msg) msg g)
                       [] rows).*1) as Hkeys
    by (apply foldl_append_group_keys; constructor).
  assert (∀ k,
            lookup_group k
              (foldl (λ g msg, append_group (mv_identifier msg) msg g)
                     [] rows)
            = match filter (λ r, mv_identifier r = k) rows with
              | [] => None
              | v => Some v
              end) as Hlookup.
  { intros k. rewrite foldl_append_group. simpl.
    by destruct (filter _ rows). }
  split_and!; [done|done| |].
  - intros k v Hin.
    pose proof (lookup_group_elem_of _ k v Hkeys Hin) as Hv.
    rewrite Hlookup in Hv.
    destruct (filter (λ r, mv_identifier r = k) rows) as [|x xs] eqn:Hf;
      [done|].
    injection Hv as <-. split_and!; [done|done|].
    rewrite <-Hf. apply filter_sorted, order_by_date_sorted.
  - by rewrite foldl_append_group_rows.
Qed.

End Grouping.

(** ** Runs of the collector and the message table *)

Section Runs.
Import Py Exc Datetime Database Collector Rerun.

Implicit Types (tg : Telegram.TelegramService) (db : Database.t).

Lemma keeps_keys_refl db : keeps_keys db db.
Proof. intros identifier r Hr. by exists r. Qed.

Lemma keeps_keys_trans db1 db2 db3 :
  keeps_keys db1 db2 → keeps_keys db2 db3 → keeps_keys db1 db3.
Proof.
  intros H12 H23 identifier r Hr.
  destruct (H12 identifier r Hr) as (r2 & Hr2 & Hid2).
  destruct (H23 identifier r2 Hr2) as (r3 & Hr3 & Hid3).
  exists r3. split; [done|congruence].
Qed.

Lemma keeps_keys_same_sources db db' :
  sources db' = sources db → keeps_keys db db'.
Proof.
  intros Hs identifier r Hr. exists r. split; [|done].
  unfold get_source_by_identifier in *. by rewrite Hs.
Qed.

Lemma add_source_keeps_keys db identifier source_type title username now :
  keeps_keys db (add_source db identifier source_type title username now).2.
Proof.
  intros other r Hr.
  destruct (decide (other = identifier)) as [->|Hother].
  - destruct (add_source_stored db identifier source_type title username
                now r Hr) as [_ Hget].
    eexists. split; [exact Hget|done].
  - destruct (add_source_elsewhere db identifier source_type title username
                now other Hother) as [Hget _].
    exists r. by rewrite Hget.
Qed.

(** One [add_message] call: the table grows by the row or stays as it
    is, and afterwards the pair is stored. *)
Lemma store_message_effect source_id msg db :
  ∃ is_new db' added,
    store_message (Some source_id) msg db = (Ok is_new, db')
    ∧ messages db' = messages db ++ added
    ∧ length added = (if is_new : bool then 1 else 0)
    ∧ sources db' = sources db
    ∧ reports db' = reports db
    ∧ (source_id, Telegram.message_id msg) ∈ msg_key <$> messages db'.
Proof.
  unfold store_message, lift_db.
  destruct (decide ((source_id, Telegram.message_id msg)
                    ∈ msg_key <$> messages db)) as [Hin|Hfresh].
  - rewrite add_message_stored by done.
    exists false, db, []. by rewrite app_nil_r.
  - rewrite add_message_new by done.
    eexists true, _, [_]. split; [done|]. cbn [messages sources reports].
    split_and!; try done.
    rewrite fmap_app. apply elem_of_app. right.
    by apply list_elem_of_singleton.
Qed.

Lemma store_messages_effect source_id fetched_messages new_messages db :
  ∃ n db' added,
    store_messages (Some source_id) fetched_messages new_messages db
    = (Ok n, db')
    ∧ messages db' = messages db ++ added
    ∧ n = new_messages + length added
    ∧ length added ≤ length fetched_messages
    ∧ sources db' = sources db
    ∧ reports db' = reports db
    ∧ ∀ m, m ∈ fetched_messages →
           (source_id, Telegram.message_id m) ∈ msg_key <$> messages db'.
Proof.
  revert new_messages db.
  induction fetched_messages as [|msg rest IH]; intros new_messages db.
  - exists new_messages, db, []. rewrite app_nil_r. simpl.
    split_and!; [done|done|lia|done|done|done|].
    intros m Hm. by apply elem_of_nil in Hm.
  - cbn [store_messages]. unfold bind at 1.
    destruct (store_message_effect source_id msg db)
      as (is_new & db1 & added1 & -> & Hm1 & Hlen1 & Hs1 & Hr1 & Hin1).
    destruct (IH (if is_new then new_messages + 1 else new_messages) db1)
      as (n & db2 & added2 & -> & Hm2 & Hn & Hlen2 & Hs2 & Hr2 & Hin2).
    exists n, db2, (added1 ++ added2).
    split; [done|]. split; [by rewrite Hm2, Hm1, app_assoc|].
    rewrite length_app. simpl.
    split; [destruct is_new; lia|]. split; [destruct is_new; lia|].
    split; [congruence|]. split; [congruence|].
    intros m Hm. apply elem_of_cons in Hm as [->|Hm]; [|by apply Hin2].
    rewrite Hm2, fmap_app. apply elem_of_app. by left.
Qed.

(** When every pair is stored already, nothing is added. *)
Lemma store_messages_settled source_id fetched_messages new_messages db :
  (∀ m, m ∈ fetched_messages →
        (source_id, Telegram.message_id m) ∈ msg_key <$> messages db) →
  store_messages (Some source_id) fetched_messages new_messages db
  = (Ok new_messages, db).
Proof.
  revert new_messages.
  induction fetched_messages as [|msg rest IH]; intros new_messages Hin;
    [done|].
  cbn [store_messages]. unfold bind at 1, store_message, lift_db.
  rewrite add_message_stored by (apply Hin; left).
  apply IH. intros m Hm. apply Hin. by right.
Qed.

(** What one source does to the database. *)
Lemma collect_from_source_effect tg identifier source_type start_date
    end_date now db :
  ∃ counts db' added,
    collect_from_source tg identifier source_type start_date end_date now db
    = (Ok counts, db')
    ∧ counts.1 = fetched tg identifier start_date end_date
    ∧ messages db' = messages db ++ added
    ∧ counts.2 = length added
    ∧ counts.2 ≤ counts.1
    ∧ reports db' = reports db
    ∧ keeps_keys db db'
    ∧ settled tg start_date end_date db' identifier.
Proof.
  unfold collect_from_source, try_except, bind, lift_result, lift_db, ret.
  unfold fetched, settled, Telegram.get_entity_info.
  destruct (Telegram.get_entity tg identifier) as [entity|e] eqn:Hentity.
  - set (title := Telegram.info_title _). set (username := Telegram.info_username _).
    destruct (add_source_returns_key db identifier source_type title
                username now) as (r & Hr & Hkey).
    pose proof (add_source_keeps_keys db identifier source_type title
                  username now) as Hkeep.
    assert (messages (add_source db identifier source_type title username
                                 now).2 = messages db
            ∧ reports (add_source db identifier source_type title username
                                  now).2 = reports db) as [Hmsgs Hreps].
    { unfold add_source, upsert_source. cbn [snd]. by case_decide. }
    destruct (add_source db identifier source_type title username now)
      as [source_id db1]. cbn [fst snd] in *. subst source_id.
    destruct (store_messages_effect (src_id r)
                (Telegram.get_messages tg identifier start_date end_date)
                0 db1)
      as (n & db2 & added & -> & Hm & Hn & Hlen & Hs & Hrp & Hin).
    exists (length (Telegram.get_messages tg identifier start_date end_date),
            n), db2, added. cbn [fst snd].
    split_and!; try done.
    + congruence.
    + lia.
    + congruence.
    + eapply keeps_keys_trans; [exact Hkeep|].
      by apply keeps_keys_same_sources.
    + right. exists r. split; [|done].
      unfold get_source_by_identifier in *. by rewrite Hs.
  - exists (0, 0), db, []. rewrite app_nil_r. cbn [fst snd].
    split_and!; try done; [apply keeps_keys_refl|]. left. by exists e.
Qed.

End Runs.

Section Reruns.
Import Py Exc Datetime Database DatabaseViews Collector Rerun.

Implicit Types (tg : Telegram.TelegramService) (db : Database.t).

Lemma settled_later tg start_date end_date db db' added identifier :
  keeps_keys db db' →
  messages db' = messages db ++ added →
  settled tg start_date end_date db identifier →
  settled tg start_date end_date db' identifier.
Proof.
  intros Hkeys Hmsgs [Hgone|(r & Hr & Hin)]; [by left|]. right.
  destruct (Hkeys identifier r Hr) as (r' & Hr' & Hid).
  exists r'. split; [done|]. intros m Hm.
  rewrite Hid, Hmsgs, fmap_app. apply elem_of_app. left. by apply Hin.
Qed.

(** A settled source is fetched again and adds nothing. *)
Lemma collect_from_source_settled tg identifier source_type start_date
    end_date now db :
  settled tg start_date end_date db identifier →
  ∃ db',
    collect_from_source tg identifier source_type start_date end_date now db
    = (Ok (fetched tg identifier start_date end_date, 0), db')
    ∧ messages db' = messages db
    ∧ reports db' = reports db
    ∧ keeps_keys db db'.
Proof.
  intros Hsettled. unfold fetched.
  destruct (Telegram.get_entity tg identifier) as [entity|e] eqn:Hentity.
  - destruct Hsettled as [[e He]|(r & Hr & Hin)]; [congruence|].
    unfold collect_from_source, try_except, bind, lift_result, lift_db, ret.
    unfold Telegram.get_entity_info. rewrite Hentity.
    set (title := Telegram.info_title _).
    set (username := Telegram.info_username _).
    pose proof (add_source_keeps_keys db identifier source_type title
                  username now) as Hkeep.
    destruct (add_source_stored db identifier source_type title username
                now r Hr) as [Hrun _].
    rewrite Hrun in *. cbn [snd] in Hkeep.
    rewrite store_messages_settled by done.
    eexists. split; [done|]. by split_and!.
  - exists db.
    rewrite (collect_from_source_unresolved _ _ _ _ _ _ _ e Hentity).
    split_and!; try done. apply keeps_keys_refl.
Qed.

Lemma collect_loop_effect tg sources start_date end_date now
    total_messages total_new failed db :
  ∃ db' added,
    collect_loop tg sources start_date end_date now
                 total_messages total_new failed db
    = (Ok (total_messages + fetched_total tg sources start_date end_date,
           total_new + length added, failed), db')
    ∧ messages db' = messages db ++ added
    ∧ length added ≤ fetched_total tg sources start_date end_date
    ∧ reports db' = reports db
    ∧ keeps_keys db db'
    ∧ Forall (λ s, settled tg start_date end_date db' s.1) sources.
Proof.
  revert total_messages total_new db.
  induction sources as [|[identifier source_type] rest IH];
    intros total_messages total_new db.
  - exists db, []. unfold fetched_total. simpl.
    rewrite app_nil_r, !Nat.add_0_r.
    split_and!; try done. apply keeps_keys_refl.
  - destruct (collect_loop_step tg identifier source_type rest start_date
                end_date now total_messages total_new failed db)
      as (counts & db1 & Hrun & ->).
    destruct (collect_from_source_effect tg identifier source_type
                start_date end_date now db)
      as (counts' & db1' & added1 & Hrun' & Hfetched & Hm1 & Hnew & Hle
          & Hr1 & Hk1 & Hsettled).
    rewrite Hrun in Hrun'. injection Hrun' as <- <-.
    destruct (IH (total_messages + counts.1) (total_new + counts.2) db1)
      as (db2 & added2 & -> & Hm2 & Hle2 & Hr2 & Hk2 & Hall).
    exists db2, (added1 ++ added2).
    unfold fetched_total in *. cbn [fmap list_fmap sum_list fst].
    rewrite <-Hfetched, length_app, <-Hnew.
    split; [by rewrite !Nat.add_assoc|].
    split; [by rewrite Hm2, Hm1, app_assoc|].
    unfold id in *.
    split; [lia|]. split; [congruence|].
    split; [by eapply keeps_keys_trans|].
    constructor; [|done]. by eapply settled_later.
Qed.

Lemma collect_loop_settled tg sources start_date end_date now
    total_messages total_new failed db :
  Forall (λ s, settled tg start_date end_date db s.1) sources →
  ∃ db',
    collect_loop tg sources start_date end_date now
                 total_messages total_new failed db
    = (Ok (total_messages + fetched_total tg sources start_date end_date,
           total_new, failed), db')
    ∧ messages db' = messages db
    ∧ reports db' = reports db.
Proof.
  revert total_messages total_new db.
  induction sources as [|[identifier source_type] rest IH];
    intros total_messages total_new db Hall.
  - exists db. unfold fetched_total. simpl. by rewrite Nat.add_0_r.
  - apply Forall_cons in Hall as [Hfirst Hrest]. cbn [fst] in Hfirst.
    destruct (collect_loop_step tg identifier source_type rest start_date
                end_date now total_messages total_new failed db)
      as (counts & db1 & Hrun & ->).
    destruct (collect_from_source_settled tg identifier source_type
                start_date end_date now db Hfirst)
      as (db1' & Hrun' & Hm1 & Hr1 & Hk1).
    rewrite Hrun in Hrun'. injection Hrun' as -> <-. cbn [fst snd].
    destruct (IH (total_messages + fetched tg identifier start_date end_date)
                 (total_new + 0) db1) as (db2 & -> & Hm2 & Hr2).
    { eapply Forall_impl; [exact Hrest|]. intros s Hs.
      eapply (settled_later _ _ _ db db1 []); [done| |done].
      by rewrite app_nil_r. }
    exists db2. unfold fetched_total. cbn [fmap list_fmap sum_list fst].
    rewrite Nat.add_0_r, Nat.add_assoc.
    split; [done|]. split; congruence.
Qed.

(** X9.  The [new_messages] of a run is the number of rows it added to
    the message table: the table keeps its rows and gets that many at
    its end, [get_stats] shows the difference, [new_messages] never
    exceeds [total_messages], [total_messages] is what the sources
    delivered, and no report is touched. *)
Theorem collect_counts_added_rows tg sources start_date end_date now db :
  ∃ st db' added,
    collect_from_all_sources tg sources start_date end_date now db
    = (Ok st, db')
    ∧ messages db' = messages db ++ added
    ∧ new_messages st = length added
    ∧ n_messages (get_stats db') = n_messages (get_stats db) + new_messages st
    ∧ new_messages st ≤ total_messages st
    ∧ total_messages st = fetched_total tg sources start_date end_date
    ∧ reports db' = reports db.
Proof.
  unfold collect_from_all_sources, bind, ret.
  destruct (collect_loop_effect tg sources start_date end_date now 0 0 [] db)
    as (db' & added & -> & Hm & Hle & Hr & _).
  eexists _, db', added. split; [done|]. cbn.
  split_and!; try done. by rewrite Hm, length_app.
Qed.

(** X10.  Running the collection again over the same window with the
    same answers of the client adds nothing: the second run fetches as
    many messages as the first, counts no new one and leaves the message
    table as the first run left it. *)
Theorem collect_again_adds_nothing tg sources start_date end_date now now'
    db :
  ∃ st db1 st' db2,
    collect_from_all_sources tg sources start_date end_date now db
    = (Ok st, db1)
    ∧ collect_from_all_sources tg sources start_date end_date now' db1
      = (Ok st', db2)
    ∧ new_messages st' = 0
    ∧ total_messages st' = total_messages st
    ∧ messages db2 = messages db1
    ∧ reports db2 = reports db.
Proof.
  unfold collect_from_all_sources, bind, ret.
  destruct (collect_loop_effect tg sources start_date end_date now 0 0 [] db)
    as (db1 & added & Hrun1 & Hm & Hle & Hr & _ & Hall).
  destruct (collect_loop_settled tg sources start_date end_date now' 0 0 []
              db1 Hall) as (db2 & Hrun2 & Hm2 & Hr2).
  eexists _, db1, _, db2. rewrite Hrun1, Hrun2.
  split; [done|]. split; [done|]. cbn.
  split_and!; try done. congruence.
Qed.

End Reruns.

(** ** The windows of the collector *)

Section Windows.
Import Py Exc Datetime Collector CollectorWindows.
Local Open Scope Z_scope.

Lemma replace_midnight_multiple now :
  replace_midnight now = 86400000000 * (now / 86400000000)
  ∧ 0 ≤ now - replace_midnight now < 86400000000.
Proof.
  unfold replace_midnight. change day with 86400000000.
  pose proof (Z.div_mod now 86400000000 ltac:(lia)).
  pose proof (Z.mod_pos_bound now 86400000000 ltac:(lia)).
  lia.
Qed.

(** X11.  The window of [collect_yesterday] is one day long and ends at
    the last midnight before the clock reading; the windows of runs one
    day apart are adjacent, and an instant lies in the window of at most
    one day, so daily runs cover every instant once; the window of
    [collect_today] starts where that of [collect_yesterday] ends; the
    window of [collect_last_n_hours] ends at the clock reading and is
    [hours] hours long. *)
Theorem daily_windows_tile :
  (∀ now,
     (yesterday now).2 - (yesterday now).1 = day
     ∧ (yesterday now).2 ≤ now < (yesterday now).2 + day)
  ∧ (∀ now, (yesterday (now + day)).1 = (yesterday now).2)
  ∧ (∀ now now' t,
       (yesterday now).1 ≤ t < (yesterday now).2 →
       (yesterday now').1 ≤ t < (yesterday now').2 →
       yesterday now = yesterday now')
  ∧ (∀ now_start now_end,
       (today now_start now_end).1 = (yesterday now_start).2
       ∧ (today now_start now_end).2 = now_end)
  ∧ (∀ now hours,
       (last_n_hours now hours).2 = now
       ∧ (last_n_hours now hours).2 - (last_n_hours now hours).1
         = hours * hour).
Proof.
  unfold yesterday, today, last_n_hours, timedelta_days, timedelta_hours.
  cbn [fst snd]. split_and!.
  - intros now. destruct (replace_midnight_multiple now) as [_ Hnow].
    change day with 86400000000. lia.
  - intros now.
    destruct (replace_midnight_multiple now) as [Hm Hnow].
    destruct (replace_midnight_multiple (now + day)) as [Hm' Hnow'].
    change day with 86400000000 in *. lia.
  - intros now now' t Ht Ht'.
    destruct (replace_midnight_multiple now) as [Hm _].
    destruct (replace_midnight_multiple now') as [Hm' _].
    change day with 86400000000 in *.
    assert (replace_midnight now = replace_midnight now') as -> by lia.
    done.
  - done.
  - intros now hours. split; [done|]. lia.
Qed.

End Windows.

(** ** Sending a report *)

Section Sending.
Import Py Exc Telegram Chunking Delivery.

Lemma send_parts_effect o parts delivered :
  ∃ r sent,
    send_parts o parts delivered = (r, delivered ++ sent)
    ∧ sent `prefix_of` parts
    ∧ (r = Ok () ∧ sent = parts
       ∨ ∃ e rejected,
           r = Raise e
           ∧ sent ++ [rejected] `prefix_of` parts
           ∧ accepts o (delivered ++ sent) rejected = false).
Proof.
  revert delivered. induction parts as [|part rest IH]; intros delivered.
  - exists (Ok ()), []. rewrite app_nil_r. split_and!; [done|done|by left].
  - cbn [send_parts]. unfold client_send.
    destruct (accepts o delivered part) eqn:Hacc.
    + destruct (IH (delivered ++ [part])) as (r & sent & -> & Hpre & Hend).
      exists r, (part :: sent). rewrite <-app_assoc.
      split; [done|]. split; [by apply prefix_cons|].
      destruct Hend as [[-> ->]|(e & rejected & -> & Hpre' & Hrej)];
        [by left|right].
      exists e, rejected. split; [done|].
      split; [by apply (prefix_cons part)|].
      by rewrite <-app_assoc in Hrej.
    + exists (Raise CollaboratorError), []. rewrite app_nil_r.
      split; [done|]. split; [apply prefix_nil|]. right.
      exists CollaboratorError, part. split; [done|].
      split; [|done]. by exists rest.
Qed.

(** X12.  [send_message] always returns.  What it hands to the client is
    the text itself when that has at most 4000 characters, and the parts
    of [_split_message] otherwise; every piece has at most 4000
    characters; the pieces are delivered in order until the client
    rejects one, nothing is delivered after a rejected piece, and the
    result is [True] exactly when every piece was delivered. *)
Theorem send_message_pieces o text delivered :
  ∃ flag sent pieces,
    send_message o text delivered = Some (flag, delivered ++ sent)
    ∧ (length text ≤ 4000 → pieces = [text])
    ∧ (4000 < length text → _split_message text 4000 = Some pieces)
    ∧ within 4000 pieces
    ∧ sent `prefix_of` pieces
    ∧ (flag = true ↔ sent = pieces)
    ∧ (flag = false →
         ∃ rejected,
           sent ++ [rejected] `prefix_of` pieces
           ∧ accepts o (delivered ++ sent) rejected = false).
Proof.
  assert (∀ pieces,
            ∃ flag sent,
              match send_parts o pieces delivered with
              | (Ok _, delivered') => Some (true, delivered')
              | (Raise _, delivered') => Some (false, delivered')
              end = Some (flag, delivered ++ sent)
              ∧ sent `prefix_of` pieces
              ∧ (flag = true ↔ sent = pieces)
              ∧ (flag = false →
                   ∃ rejected,
                     sent ++ [rejected] `prefix_of` pieces
                     ∧ accepts o (delivered ++ sent) rejected = false))
    as Hsend.
  { intros pieces.
    destruct (send_parts_effect o pieces delivered)
      as (r & sent & -> & Hpre & [[-> ->]|(e & rejected & -> & Hpre' & Hrej)]).
    - exists true, pieces. by split_and!.
    - exists false, sent. split_and!; [done|done| |by exists rejected].
      split; [done|]. intros ->. by apply prefix_snoc_not in Hpre'. }
  unfold send_message, max_length.
  destruct (Nat.leb_spec (length text) 4000) as [Hshort|Hlong].
  - destruct (Hsend [text]) as (flag & sent & Hrun & Hrest).
    exists flag, sent, [text]. cbn [send_parts] in Hrun.
    split.
    { destruct (client_send o delivered text) as [[[]|e] delivered'];
        exact Hrun. }
    split; [done|]. split; [lia|].
    split; [by apply Forall_singleton|done].
  - destruct (split_message_bound text 4000) as (pieces & -> & Hwithin);
      [lia|].
    destruct (Hsend pieces) as (flag & sent & Hrun & Hrest).
    exists flag, sent, pieces. split; [exact Hrun|].
    split; [lia|]. by split.
Qed.

End Sending.

(** ** Digests *)

Section Digests.
Import Py Exc Datetime Database DigestGenerator DigestCounts.

Lemma truthy_not_nil (s : list N) : truthy s = true → s ≠ [].
Proof. by destruct s. Qed.

Lemma format_text_nonempty m : Forall (λ t, t ≠ []) (format_text m).
Proof.
  unfold format_text.
  destruct (otruthy (msg_sender_name (mv_msg m))); simpl.
  - destruct (msg_text (mv_msg m)) as [text|]; simpl; [|constructor].
    destruct (truthy text); repeat constructor. done.
  - destruct (msg_text (mv_msg m)) as [text|]; simpl; [|constructor].
    destruct (truthy text) eqn:Htext; repeat constructor.
    by apply truthy_not_nil.
Qed.

Lemma message_texts_nonempty rows :
  Forall (λ t, t ≠ []) (message_texts rows).
Proof.
  unfold message_texts. induction rows as [|m rows IH]; [constructor|].
  rewrite bind_cons. apply Forall_app. split; [|done].
  apply format_text_nonempty.
Qed.

(** The sample of a list that is not empty. *)
Lemma limit_messages_sample {A : Type} (texts : list A) :
  texts ≠ [] →
  ∃ sampled,
    limit_messages texts = Ok sampled
    ∧ 1 ≤ length sampled ≤ 200
    ∧ sampled `sublist_of` texts.
Proof.
  intros Hne.
  destruct (decide (length texts ≤ max_messages)) as [Hle|Hgt].
  - exists texts. rewrite limit_messages_below by done.
    unfold max_messages in Hle. split; [done|]. split; [|done].
    destruct texts; [done|]. simpl in *. lia.
  - assert (max_messages < length texts) as Hlt by lia.
    exists (take max_messages
                 (stride 0 (length texts / max_messages) texts)).
    rewrite limit_messages_above by done.
    pose proof (strided_at_least_cap texts Hlt) as Hcap.
    unfold max_messages in *. split; [done|]. split.
    + rewrite length_take. lia.
    + etrans; [apply sublist_take|apply stride_sublist].
Qed.

(** X13.  [generate_digest_for_chat] never raises: a stride of zero
    cannot occur and a failure of the summarizer gives [None].  For an
    unknown source it returns [None]; and a digest comes from a call of
    the summarizer with at least 1 and at most 200 texts, none of them
    empty, taken in order from the representative texts of the source's
    messages in the window. *)
Theorem digest_for_chat_total db bothub identifier start_date end_date
    max_topics :
  ∃ digest,
    generate_digest_for_chat db bothub identifier start_date end_date
                             max_topics = Ok digest
    ∧ (get_source_by_identifier db identifier = None → digest = None)
    ∧ (∀ d, digest = Some d →
         ∃ source texts,
           get_source_by_identifier db identifier = Some source
           ∧ bothub texts max_topics = Ok (Some d)
           ∧ 1 ≤ length texts ≤ 200
           ∧ Forall (λ t, t ≠ []) texts
           ∧ texts `sublist_of`
               message_texts
                 (get_messages_by_date_range db start_date end_date
                    (Some (src_id source)))).
Proof.
  unfold generate_digest_for_chat.
  destruct (get_source_by_identifier db identifier) as [source|];
    [|by exists None].
  set (rows := get_messages_by_date_range db start_date end_date
                 (Some (src_id source))).
  destruct rows as [|row rows'] eqn:Hrows; [by exists None|].
  rewrite <-Hrows. clear Hrows row rows'.
  pose proof (message_texts_nonempty rows) as Hnonempty.
  destruct (message_texts rows) as [|t ts] eqn:Htexts; [by exists None|].
  destruct (limit_messages_sample (t :: ts)) as (sampled & -> & Hlen & Hsub);
    [done|].
  destruct (bothub sampled max_topics) as [digest|e] eqn:Hcall;
    [|by exists None].
  exists digest. split; [done|]. split; [done|].
  intros d ->. exists source, sampled.
  split_and!; [done|done|lia|lia| |].
  - rewrite Forall_forall in Hnonempty. apply Forall_forall.
    intros x Hx. apply Hnonempty. by apply (sublist_subseteq _ _ Hsub).
  - fold rows. by rewrite Htexts.
Qed.

(** X14.  [get_chat_message_count] is 0 for an unknown source, and for
    a stored source it is the number of stored messages of that source
    whose timestamp lies in the window. *)
Theorem chat_message_count_counts db identifier start_date end_date :
  db_ok db →
  (get_source_by_identifier db identifier = None →
   get_chat_message_count db identifier start_date end_date = 0)
  ∧ (∀ source,
       get_source_by_identifier db identifier = Some source →
       get_chat_message_count db identifier start_date end_date
       = length (filter (λ m, msg_source_id m = src_id source
                              ∧ (start_date ≤ msg_date m < end_date)%Z)
                        (messages db))).
Proof.
  intros Hok. unfold get_chat_message_count. split.
  - by intros ->.
  - intros source Hsource. rewrite Hsource.
    rewrite <-(length_fmap mv_msg).
    rewrite (window_query_perm db start_date end_date _ Hok).
    f_equal. apply list_filter_iff. intros m.
    apply head_filter_Some in Hsource as [Hin _].
    destruct Hok as [((_ & _ & _ & Hbound) & _) _].
    rewrite Forall_forall in Hbound. specialize (Hbound source Hin).
    unfold in_range, source_filter.
    rewrite decide_False by lia. simpl. tauto.
Qed.

Lemma chat_message_count_witness :
  db_ok Scenario.around_day
  ∧ get_chat_message_count Scenario.around_day (lit "@nobody")
      (Scenario.midnight 19723) (Scenario.midnight 19724) = 0
  ∧ get_chat_message_count Scenario.around_day (lit "@chat")
      (Scenario.midnight 19723) (Scenario.midnight 19724) = 2.
Proof.
  assert (db_ok Scenario.around_day) as Hok
    by (apply (bool_decide_unpack _); vm_compute; exact I).
  destruct (chat_message_count_counts Scenario.around_day (lit "@nobody")
              (Scenario.midnight 19723) (Scenario.midnight 19724) Hok)
    as [Hnone _].
  split; [done|]. split; [by apply Hnone|by vm_compute].
Defined.

End Digests.

(** ** Escaping *)

Section EscapingMore.
Import Py ReportFormatter Rendering.

Lemma escape_char_cases (c : N) :
  (c = 38%N ∧ escape_char c = [38; 97; 109; 112; 59]%N)
  ∨ (c = 60%N ∧ escape_char c = [38; 108; 116; 59]%N)
  ∨ (c = 62%N ∧ escape_char c = [38; 103; 116; 59]%N)
  ∨ (c ≠ 38%N ∧ c ≠ 60%N ∧ c ≠ 62%N ∧ escape_char c = [c]).
Proof.
  unfold escape_char.
  destruct (N.eqb_spec c 38) as [->|?]; [by left|].
  destruct (N.eqb_spec c 60) as [->|?]; [by right; left|].
  destruct (N.eqb_spec c 62) as [->|?]; [by right; right; left|].
  by right; right; right.
Qed.

Lemma escape_chars_injective (a b : list N) :
  a ≫= escape_char = b ≫= escape_char → a = b.
Proof.
  revert b. induction a as [|c a IH]; intros [|d b]; rewrite ?bind_cons.
  - done.
  - intros H. exfalso. cbn in H.
    destruct (escape_char_cases d) as [[_ E]|[[_ E]|[[_ E]|(_&_&_&E)]]];
      rewrite E in H; discriminate.
  - intros H. exfalso. cbn in H.
    destruct (escape_char_cases c) as [[_ E]|[[_ E]|[[_ E]|(_&_&_&E)]]];
      rewrite E in H; discriminate.
  - intros H.
    destruct (escape_char_cases c)
      as [[-> E]|[[-> E]|[[-> E]|(?&?&?&E)]]];
    destruct (escape_char_cases d)
      as [[-> E']|[[-> E']|[[-> E']|(?&?&?&E')]]];
    rewrite ?E, ?E' in H; cbn in H; simplify_eq; try done;
    f_equal; by apply IH.
Qed.

Lemma escape_chars_no_angle (t : list N) :
  Forall (λ c, c ≠ 60%N ∧ c ≠ 62%N) (t ≫= escape_char).
Proof.
  induction t as [|c t IH]; [constructor|].
  rewrite bind_cons. apply Forall_app. split; [|done].
  destruct (escape_char_cases c) as [[_ E]|[[_ E]|[[_ E]|(?&?&?&E)]]];
    rewrite E; repeat constructor; done.
Qed.

Lemma escape_chars_length (t : list N) :
  length t ≤ length (t ≫= escape_char) ≤ 5 * length t.
Proof.
  induction t as [|c t IH]; [simpl; lia|].
  rewrite bind_cons, length_app.
  destruct (escape_char_cases c) as [[_ E]|[[_ E]|[[_ E]|(?&?&?&E)]]];
    rewrite E; simpl; lia.
Qed.

(** X15.  [_escape_html] leaves no [<] and no [>] in its output, maps
    different texts to different outputs, and makes a text at most five
    times as long; so the body that [_format_message] renders has at
    most 1515 characters. *)
Theorem escape_html_safe :
  (∀ t, Forall (λ c, c ≠ 60%N ∧ c ≠ 62%N) (_escape_html t))
  ∧ (∀ a b, _escape_html a = _escape_html b → a = b)
  ∧ (∀ t, length t ≤ length (_escape_html t) ≤ 5 * length t)
  ∧ (∀ m, length (_escape_html (default [] (truncate (text m)))) ≤ 1515).
Proof.
  split_and!.
  - intros t. rewrite escape_html_chars. apply escape_chars_no_angle.
  - intros a b. rewrite !escape_html_chars. apply escape_chars_injective.
  - intros t. rewrite escape_html_chars. apply escape_chars_length.
  - intros m. rewrite escape_html_chars.
    pose proof (escape_chars_length (default [] (truncate (text m)))) as Hlen.
    assert (length (default [] (truncate (text m))) ≤ 303) as Hbody; [|lia].
    rewrite truncate_shown. unfold shown_body.
    destruct (text m) as [t|]; [|simpl; lia].
    destruct (Nat.ltb_spec 300 (length t)); [|lia].
    rewrite length_app, length_take.
    change (length (lit "...")) with 3. lia.
Qed.

End EscapingMore.

(** ** The configured sources *)

Section Channels.
Import Py Config.

Implicit Types (s item : list N) (items : list (list N)).

Lemma split_length sep s :
  length (split sep s) = S (length (filter (λ c, c = sep) s)).
Proof.
  induction s as [|c s IH]; [done|]. simpl. rewrite filter_cons.
  destruct (N.eqb_spec c sep) as [->|Hc].
  - rewrite decide_True by done. simpl. by rewrite IH.
  - rewrite decide_False by done.
    destruct (split sep s) as [|l ls]; [done|]. by rewrite <-IH.
Qed.

Lemma split_no_sep sep s : Forall (λ item, sep ∉ item) (split sep s).
Proof.
  induction s as [|c s IH]; simpl.
  - repeat constructor. apply not_elem_of_nil.
  - destruct (N.eqb_spec c sep) as [->|Hc].
    + constructor; [apply not_elem_of_nil|done].
    + destruct (split sep s) as [|l ls].
      * repeat constructor. intros Hin.
        apply list_elem_of_singleton in Hin. congruence.
      * apply Forall_cons in IH as [Hl Hls]. constructor; [|done].
        intros Hin. apply elem_of_cons in Hin as [?|?]; [congruence|done].
Qed.

Lemma split_clean sep item : sep ∉ item → split sep item = [item].
Proof.
  induction item as [|c item IH]; [done|]. intros Hnot. simpl.
  destruct (N.eqb_spec c sep) as [->|Hc]; [destruct Hnot; left|].
  rewrite IH; [done|]. intros Hin. apply Hnot. by right.
Qed.

Lemma split_app_sep sep item s :
  sep ∉ item → split sep (item ++ sep :: s) = item :: split sep s.
Proof.
  induction item as [|c item IH]; intros Hnot; simpl.
  - by rewrite N.eqb_refl.
  - destruct (N.eqb_spec c sep) as [->|Hc]; [destruct Hnot; left|].
    rewrite IH; [done|]. intros Hin. apply Hnot. by right.
Qed.

(** Splitting what was joined gives the items back. *)
Lemma split_join sep items :
  items ≠ [] → Forall (λ item, sep ∉ item) items →
  split sep (join [sep] items) = items.
Proof.
  intros Hne Hall. induction Hall as [|item items Hitem Hitems IH]; [done|].
  destruct items as [|item' items].
  - by apply split_clean.
  - change (join [sep] (item :: item' :: items))
      with (item ++ sep :: join [sep] (item' :: items)).
    rewrite split_app_sep by done. by rewrite IH.
Qed.

Lemma lstrip_clean s : starts_clean (lstrip s).
Proof.
  induction s as [|c s IH]; [by intros c|]. simpl.
  destruct (isspace c) eqn:Hc; [done|]. intros c' [= <-]. done.
Qed.

Lemma lstrip_id s : starts_clean s → lstrip s = s.
Proof.
  destruct s as [|c s]; [done|]. intros Hclean. simpl.
  by rewrite (Hclean c).
Qed.

Lemma lstrip_suffix s : ∃ spaces, s = spaces ++ lstrip s.
Proof.
  induction s as [|c s [spaces IH]]; [by exists []|]. simpl.
  destruct (isspace c); [|by exists []].
  exists (c :: spaces). simpl. by rewrite <-IH.
Qed.

Lemma rstrip_prefix s : ∃ spaces, s = rstrip s ++ spaces.
Proof.
  destruct (lstrip_suffix (reverse s)) as [spaces Hs].
  exists (reverse spaces). unfold rstrip.
  rewrite <-reverse_app, <-Hs. by rewrite reverse_involutive.
Qed.

Lemma rstrip_clean s : starts_clean s → starts_clean (rstrip s).
Proof.
  intros Hclean c Hc. destruct (rstrip_prefix s) as [spaces Hs].
  apply Hclean. rewrite Hs. by destruct (rstrip s).
Qed.

(** What [strip] returns neither starts nor ends with white space. *)
Lemma strip_clean s :
  starts_clean (strip s) ∧ starts_clean (reverse (strip s)).
Proof.
  unfold strip. split.
  - apply rstrip_clean, lstrip_clean.
  - unfold rstrip. rewrite reverse_involutive. apply lstrip_clean.
Qed.

Lemma strip_id s : starts_clean s → starts_clean (reverse s) → strip s = s.
Proof.
  intros Hfront Hback. unfold strip, rstrip.
  rewrite (lstrip_id s Hfront), (lstrip_id _ Hback).
  apply reverse_involutive.
Qed.

Lemma strip_idempotent s : strip (strip s) = strip s.
Proof. destruct (strip_clean s). by apply strip_id. Qed.

Lemma lstrip_subseteq s c : c ∈ lstrip s → c ∈ s.
Proof.
  destruct (lstrip_suffix s) as [spaces Hs]. intros Hc.
  rewrite Hs. apply elem_of_app. by right.
Qed.

Lemma strip_subseteq s c : c ∈ strip s → c ∈ s.
Proof.
  unfold strip, rstrip. intros Hc. rewrite elem_of_reverse in Hc.
  apply lstrip_subseteq in Hc. rewrite elem_of_reverse in Hc.
  by apply lstrip_subseteq.
Qed.

Lemma split_once_spec sep s :
  sep ∈ s →
  s = (split_once sep s).1 ++ sep :: (split_once sep s).2
  ∧ sep ∉ (split_once sep s).1.
Proof.
  induction s as [|c s IH]; intros Hin; [by apply elem_of_nil in Hin|].
  simpl. destruct (N.eqb_spec c sep) as [->|Hc].
  - split; [done|]. apply not_elem_of_nil.
  - apply elem_of_cons in Hin as [?|Hin]; [congruence|].
    destruct (IH Hin) as [Hs Hnot].
    destruct (split_once sep s) as [before after]. simpl in *.
    split; [by rewrite <-Hs|].
    intros Hin'. apply elem_of_cons in Hin' as [?|?]; [congruence|done].
Qed.

Lemma split_once_app sep before after :
  sep ∉ before → split_once sep (before ++ sep :: after) = (before, after).
Proof.
  induction before as [|c before IH]; intros Hnot; simpl.
  - by rewrite N.eqb_refl.
  - destruct (N.eqb_spec c sep) as [->|Hc]; [destruct Hnot; left|].
    rewrite IH; [done|]. intros Hin. apply Hnot. by right.
Qed.

(** An item of CHANNELS always parses into a well-formed entry. *)
Lemma parse_item_well_formed item :
  comma ∉ item → well_formed (parse_item item).
Proof.
  intros Hcomma. unfold parse_item, contains.
  assert (comma ∉ strip item) as Hcomma'
    by (intros Hin; by apply Hcomma, strip_subseteq).
  case_bool_decide as Hcolon.
  - destruct (split_once_spec colon (strip item) Hcolon) as [Hs Hnot].
    destruct (split_once colon (strip item)) as [identifier channel_type].
    cbn [fst snd] in *. unfold well_formed. cbn [fst snd].
    rewrite !strip_idempotent. split_and!; try done.
    + intros Hin. apply strip_subseteq in Hin. apply Hcomma'.
      rewrite Hs. apply elem_of_app. by left.
    + intros Hin. by apply strip_subseteq in Hin.
    + intros Hin. apply strip_subseteq in Hin. apply Hcomma'.
      rewrite Hs. apply elem_of_app. right. by right.
  - unfold well_formed. cbn [fst snd].
    rewrite strip_idempotent.
    split_and!; [done|by vm_compute|done|done|].
    apply (bool_decide_unpack _). by vm_compute.
Qed.

(** X16.  [get_channels] yields no source exactly when CHANNELS is
    empty; otherwise it yields one entry per comma-separated item (one
    more than there are commas, blank items included), and every entry
    is well formed: identifier and kind without surrounding white
    space and without comma, the identifier without colon. *)
Theorem get_channels_entries channels_str :
  (get_channels channels_str = [] ↔ channels_str = [])
  ∧ (channels_str ≠ [] →
       length (get_channels channels_str)
       = S (length (filter (λ c, c = comma) channels_str)))
  ∧ Forall well_formed (get_channels channels_str).
Proof.
  unfold get_channels. destruct channels_str as [|c s].
  - split_and!; [done|done|constructor].
  - cbn [truthy]. split_and!.
    + split; [|done]. intros Hnil. apply fmap_nil_inv in Hnil.
      by apply split_not_nil in Hnil.
    + intros _. by rewrite length_fmap, split_length.
    + apply Forall_fmap. eapply Forall_impl; [apply split_no_sep|].
      intros item Hitem. by apply parse_item_well_formed.
Qed.

Lemma render_item_parses source :
  well_formed source → parse_item (render_item source) = source.
Proof.
  destruct source as [identifier channel_type].
  intros (Hi & Ht & _ & Hcolon & _). cbn [fst snd] in *.
  unfold parse_item, render_item, contains. cbn [fst snd app].
  destruct (strip_clean identifier) as [Hi1 Hi2].
  destruct (strip_clean channel_type) as [Ht1 Ht2].
  rewrite Hi in Hi1, Hi2. rewrite Ht in Ht1, Ht2.
  rewrite (strip_id (identifier ++ colon :: channel_type)).
  - rewrite bool_decide_true
      by (apply elem_of_app; right; left).
    rewrite split_once_app by done. by rewrite Hi, Ht.
  - intros c Hc. destruct identifier as [|c' identifier].
    + injection Hc as <-. by vm_compute.
    + apply Hi1. exact Hc.
  - intros c Hc. rewrite reverse_app, reverse_cons in Hc.
    destruct (reverse channel_type) as [|c' rest].
    + injection Hc as <-. by vm_compute.
    + apply Ht2. exact Hc.
Qed.

Lemma render_items_parse sources :
  Forall well_formed sources →
  parse_item <$> (render_item <$> sources) = sources.
Proof.
  induction 1 as [|p ps Hp _ IH]; [done|].
  rewrite !fmap_cons, IH. f_equal. by apply render_item_parses.
Qed.

(** X17.  Writing a list of well-formed sources as
    [identifier:kind,identifier:kind,...] and reading it with
    [get_channels] gives the list back. *)
Theorem get_channels_round_trip sources :
  Forall well_formed sources → get_channels (render sources) = sources.
Proof.
  intros Hall. unfold get_channels, render.
  destruct sources as [|source sources]; [done|].
  assert (Forall (λ item, comma ∉ item)
                 (render_item <$> source :: sources)) as Hcommas.
  { apply Forall_fmap. eapply Forall_impl; [exact Hall|].
    intros [i t] (_ & _ & Hi & _ & Ht). unfold render_item. cbn in *.
    intros Hin. apply elem_of_app in Hin as [?|Hin]; [done|].
    apply elem_of_cons in Hin as [?|?]; done. }
  assert (truthy (join [comma] (render_item <$> source :: sources)) = true)
    as ->.
  { rewrite fmap_cons. apply truthy_true.
    assert (render_item source ≠ []) as Hitem
      by (unfold render_item; by destruct source.1).
    destruct (render_item <$> sources); [done|].
    cbn [join]. by destruct (render_item source). }
  rewrite split_join by done.
  by apply render_items_parse.
Qed.

Lemma get_channels_round_trip_witness :
  Forall well_formed Scenario.configured
  ∧ get_channels (lit "@gone:channel,@news:channel") = Scenario.configured.
Proof.
  assert (Forall well_formed Scenario.configured) as Hall.
  { apply (bool_decide_unpack _). by vm_compute. }
  split; [done|].
  change (lit "@gone:channel,@news:channel")
    with (render Scenario.configured).
  by apply get_channels_round_trip.
Defined.

End Channels.

(** ** Fetching from a stream *)

Section Fetching.
Import Py Exc Datetime Telegram Streams.
Local Open Scope Z_scope.




End Fetching.

(** ** Splitting one long line *)

Section HardSplit.
Import Py Telegram Chunking.

Lemma hard_split_slices max_length fuel line parts :
  1 ≤ max_length → length line ≤ fuel →
  ∃ slices rest,
    hard_split fuel max_length line parts = Some (parts ++ slices, rest)
    ∧ concat slices ++ rest = line
    ∧ Forall (λ p, length p = max_length) slices
    ∧ length rest ≤ max_length
    ∧ (line ≠ [] → rest ≠ []).
Proof.
  intros Hmax. revert line parts.
  induction fuel as [|fuel IH]; intros line parts Hfuel.
  - exists [], line. simpl.
    destruct (Nat.ltb_spec max_length (length line)); [lia|].
    rewrite app_nil_r. by split_and!.
  - simpl. destruct (Nat.ltb_spec max_length (length line)) as [Hlong|Hshort].
    + destruct (IH (drop max_length line) (parts ++ [take max_length line]))
        as (slices & rest & -> & Hcat & Hall & Hrest & Hne).
      { rewrite length_drop. lia. }
      exists (take max_length line :: slices), rest.
      rewrite <-app_assoc. split; [done|]. simpl.
      split; [by rewrite <-app_assoc, Hcat, take_drop|].
      split; [constructor; [rewrite length_take; lia|done]|].
      split; [done|]. intros _. apply Hne.
      intros Hnil. apply (f_equal length) in Hnil.
      rewrite length_drop in Hnil. simpl in Hnil. lia.
    + exists [], line. rewrite app_nil_r. by split_and!.
Qed.

(** X19.  A text without a newline is cut into consecutive slices: put
    together without separator the parts give the text back, every part
    but the last has exactly [max_length] characters, and no part is
    empty. *)
Theorem split_message_one_line text max_length :
  1 ≤ max_length → nl ∉ text →
  ∃ slices last_part,
    _split_message text max_length
    = Some (slices ++ (if truthy last_part then [last_part] else []))
    ∧ concat slices ++ last_part = text
    ∧ Forall (λ p, length p = max_length) slices
    ∧ length last_part ≤ max_length
    ∧ (text ≠ [] → last_part ≠ []).
Proof.
  intros Hmax Hnl. unfold _split_message.
  rewrite (split_clean nl text Hnl). cbn [split_loop length truthy].
  destruct (Nat.ltb_spec max_length (0 + length text + 1)) as [Hflush|Hfits].
  - destruct (Nat.ltb_spec max_length (length text)) as [Hlong|Hshort].
    + destruct (hard_split_slices max_length (length text) text []
                  Hmax (Nat.le_refl _))
        as (slices & rest & -> & Hcat & Hall & Hrest & Hne).
      exists slices, rest. cbn [app]. split; [|done].
      destruct (truthy rest); by rewrite ?app_nil_r.
    + exists [], text. split; [|by split_and!].
      destruct (truthy text); by rewrite ?app_nil_r.
  - exists [], text. cbn [app]. split.
    + destruct (truthy text); by rewrite ?app_nil_r.
    + split_and!; try done. lia.
Qed.

Lemma split_message_one_line_witness :
  1 ≤ 3
  ∧ (nl ∉ lit "abcdefgh")
  ∧ ∃ slices last_part,
      _split_message (lit "abcdefgh") 3
      = Some (slices ++ (if truthy last_part then [last_part] else []))
      ∧ concat slices ++ last_part = lit "abcdefgh"
      ∧ Forall (λ p, length p = 3) slices.
Proof.
  assert (nl ∉ lit "abcdefgh") as Hnl
    by (apply (bool_decide_unpack _); vm_compute; exact I).
  assert (1 ≤ 3) as Hmax by lia.
  destruct (split_message_one_line (lit "abcdefgh") 3 Hmax Hnl)
    as (slices & last_part & Hrun & Hcat & Hall & _).
  split; [done|]. split; [done|]. by exists slices, last_part.
Defined.

End HardSplit.
